(** * cipher_four: a 16-bit substitution-permutation network

    A shallow embedding of [basic_spn.py].  Python integers are [Z]; the
    bit operators [>>], [<<], [&], [|], [^] are [Z.shiftr], [Z.shiftl],
    [Z.land], [Z.lor], [Z.lxor]; [%] with a positive modulus is [Z.modulo].
    A method that can raise returns a [result]; a method that reads or
    writes the instance, draws random numbers or prints runs in the monad
    [M] over a [world]. *)

From Stdlib Require Import ZArith List Bool String Lia.
Import ListNotations.
Local Open Scope Z_scope.

(** ** Python values, exceptions, results *)

(** What a block or a round key can be, as far as the code tells values
    apart: an [int]/[Integer]; an iterable binary representation (the digits
    of [ZZ(list(x), 2)], least significant first); or any other object, for
    which [list(x)] raises [TypeError].  For such an object [rxor] is its
    reflected [^] against an [int] when its type defines one (numpy's
    integers do), and [tyrepr] is what [type(x)] prints as. *)
Inductive pyval : Type :=
| PInt (z : Z)
| PBits (bits : list bool)
| PForeign (tyrepr : string) (rxor : option (Z -> Z)).

Inductive exn : Type :=
| ValueError                               (* "Value of the state ... is not allowed" *)
| IndexError                               (* list index out of range *)
| TypeError
| NotEnoughKeys (supplied : nat) (rounds : Z)  (* Exception("Not enough keys ...") *)
| NoKeyToDecrypt.                          (* Exception("You want to decrypt something without a key? ...") *)

Inductive result (A : Type) : Type :=
| Ok (a : A)
| Raise (e : exn).
Arguments Ok {A} a.
Arguments Raise {A} e.

Definition rbind {A B} (r : result A) (k : A -> result B) : result B :=
  match r with
  | Ok a => k a
  | Raise e => Raise e
  end.

(** ** Python lists indexed by integers *)

Definition len {A} (l : list A) : Z := Z.of_nat (List.length l).

(** [l[i]] *)
Definition py_index {A} (l : list A) (i : Z) : result A :=
  let j := if i <? 0 then i + len l else i in
  if (0 <=? j) && (j <? len l) then
    match nth_error l (Z.to_nat j) with
    | Some x => Ok x
    | None => Raise IndexError
    end
  else Raise IndexError.

(** [l[:stop]] *)
Definition py_slice_upto {A} (l : list A) (stop : Z) : list A :=
  let s := if stop <? 0 then Z.max 0 (stop + len l) else Z.min stop (len l) in
  firstn (Z.to_nat s) l.

(** [l[start::-1]] *)
Definition py_slice_downfrom {A} (l : list A) (start : Z) : list A :=
  let s := if start <? 0 then Z.max (-1) (start + len l)
           else Z.min start (len l - 1) in
  rev (firstn (Z.to_nat (s + 1)) l).

(** [enumerate(l)] *)
Fixpoint enumerate_from {A} (i : Z) (l : list A) : list (Z * A) :=
  match l with
  | [] => []
  | x :: l' => (i, x) :: enumerate_from (i + 1) l'
  end.

Definition enumerate {A} (l : list A) : list (Z * A) := enumerate_from 0 l.

(** [range(n)] *)
Definition range (n : Z) : list Z := map Z.of_nat (seq 0 (Z.to_nat n)).

(** ** The tables set up by [__init__] *)

(** [[i+4*j for i in range(4) for j in range(4)]] *)
Definition _pbox : list Z :=
  flat_map (fun i => map (fun j => i + 4 * j) (range 4)) (range 4).

(** Sage's [SBox]: a lookup table, called on a nibble.  The layers only call
    it on [(state >> i) & 0xf], which is an index of the table. *)
Definition SBox := list Z.

Definition SBox_call (S : SBox) (n : Z) : Z := nth (Z.to_nat n) S 0.

Fixpoint index_of (y : Z) (l : list Z) : Z :=
  match l with
  | [] => 0
  | x :: l' => if x =? y then 0 else 1 + index_of y l'
  end.

(** [S.inverse()]: the table that sends [S(i)] back to [i]. *)
Definition SBox_inverse (S : SBox) : SBox :=
  map (fun y => index_of y S) (range (len S)).

Definition _sbox : SBox :=
  [6; 4; 0xc; 5; 0; 7; 2; 0xe; 1; 0xf; 3; 0xd; 8; 0xa; 9; 0xb].

(** ** The instance and the world around it *)

Record cipher_four : Type := Build_cipher_four {
  _rounds : Z;
  _vec_out : bool;
  _round_keys : option (list pyval)
}.

(** [cipher_four(rounds=5, vector_output=False, round_keys=None)] *)
Definition init (rounds : Z) (vector_output : bool)
  (round_keys : option (list pyval)) : cipher_four :=
  Build_cipher_four rounds vector_output round_keys.

(** [self] is the engine; [entropy] is the sequence of values the operating
    system's generator is going to return to successive [randrange] calls;
    [stdout] collects what [print] wrote, oldest line first. *)
Record world : Type := Build_world {
  self : cipher_four;
  entropy : nat -> Z;
  stdout : list string
}.

Definition M (A : Type) : Type := world -> result A * world.

Definition ret {A} (a : A) : M A := fun w => (Ok a, w).

Definition raise {A} (e : exn) : M A := fun w => (Raise e, w).

Definition bind {A B} (m : M A) (k : A -> M B) : M B :=
  fun w =>
    match m w with
    | (Ok a, w') => k a w'
    | (Raise e, w') => (Raise e, w')
    end.

Definition lift {A} (r : result A) : M A := fun w => (r, w).

Notation "x <- m ;; k" := (bind m (fun x => k))
  (at level 61, m at next level, right associativity).
Notation "m ;;; k" := (bind m (fun _ => k))
  (at level 61, right associativity).

Fixpoint for_each {A S} (body : S -> A -> M S) (l : list A) (s : S) : M S :=
  match l with
  | [] => ret s
  | x :: l' => s' <- body s x ;; for_each body l' s'
  end.

Definition print (line : string) : M unit :=
  fun w => (Ok tt, Build_world (self w) (entropy w) (stdout w ++ [line])).

(** ** Utils *)

Fixpoint bits_to_Z (bits : list bool) : Z :=
  match bits with
  | [] => 0
  | b :: bits' => Z.b2z b + 2 * bits_to_Z bits'
  end.

Fixpoint pos_digits (p : positive) : list bool :=
  match p with
  | xH => [true]
  | xO p' => false :: pos_digits p'
  | xI p' => true :: pos_digits p'
  end.

(** [ZZ(state).digits(2)] read in GF(2): the digits of a negative number are
    those of its absolute value with the sign on each, and -1 = 1 there. *)
Definition digits2 (z : Z) : list bool :=
  match z with
  | Z0 => []
  | Zpos p => pos_digits p
  | Zneg p => pos_digits p
  end.

Definition int_to_vec (state : Z) : pyval := PBits (digits2 state).

Definition iter_to_int (state : pyval) : result Z :=
  match state with
  | PInt z => Ok z
  | PBits bits => Ok (bits_to_Z bits)
  | PForeign _ _ => Raise TypeError
  end.

(** [[key_gen.randrange(0xffff) for i in range(self._rounds + 1)]]: the next
    [rounds + 1] values of the entropy source, which are then used up. *)
Definition generate_keys : M (list pyval) :=
  fun w =>
    let n := Z.to_nat (_rounds (self w) + 1) in
    (Ok (map (fun i => PInt (entropy w i)) (seq 0 n)),
     Build_world (self w) (fun i => entropy w (n + i)%nat) (stdout w)).

(** ** Getter and setter for [round_keys] *)

Definition get_round_keys : M (option (list pyval)) :=
  fun w => (Ok (_round_keys (self w)), w).

Definition set_round_keys (keys : list pyval) : M unit :=
  fun w =>
    if len keys <? _rounds (self w) then
      (Raise (NotEnoughKeys (List.length keys) (_rounds (self w))), w)
    else
      (Ok tt,
       Build_world
         (Build_cipher_four (_rounds (self w)) (_vec_out (self w)) (Some keys))
         (entropy w) (stdout w)).

(** ** The layers *)

(** [if state and not state % (0xffff + 1): raise ValueError(...)] *)
Definition sanity_check (state : Z) : result unit :=
  if negb (state =? 0) && (state mod (0xffff + 1) =? 0)
  then Raise ValueError else Ok tt.

Definition sbox_layer (state : Z) (inverse : bool) : result Z :=
  rbind (sanity_check state) (fun _ =>
  let sbox := if inverse then SBox_inverse _sbox else _sbox in
  Ok (fold_left
        (fun res i =>
           let nib := Z.land (Z.shiftr state i) 0xf in
           Z.lor res (Z.shiftl (SBox_call sbox nib) i))
        [0; 4; 8; 12] 0)).

Definition perm_layer (state : Z) : result Z :=
  rbind (sanity_check state) (fun _ =>
  Ok (fold_left
        (fun p_state bp =>
           if negb (Z.land state (Z.shiftl 1 (fst bp)) =? 0)
           then Z.lor p_state (Z.shiftl 1 (snd bp))
           else p_state)
        (enumerate _pbox) 0)).

(** [state ^ round_key] with an [int] on the left: an [int] on the right is
    XORed; any other right operand is asked for its reflected operator, and
    without one [TypeError] is raised (a list of bits has none). *)
Definition py_xor (state : Z) (round_key : pyval) : result Z :=
  match round_key with
  | PInt k => Ok (Z.lxor state k)
  | PBits _ => Raise TypeError
  | PForeign _ (Some f) => Ok (f state)
  | PForeign _ None => Raise TypeError
  end.

Definition type_repr (v : pyval) : string :=
  match v with
  | PInt _ => "<class 'int'>"
  | PBits _ => "<class 'list'>"
  | PForeign ty _ => ty
  end.

Definition isinstance_int (v : pyval) : bool :=
  match v with
  | PInt _ => true
  | _ => false
  end.

Definition add_round_key (state : Z) (round_key : pyval) : M Z :=
  lift (sanity_check state) ;;;
  round_key <-
    (if negb (isinstance_int round_key) then
       match iter_to_int round_key with
       | Ok k => ret (PInt k)
       | Raise TypeError =>
           print ("Type of the round_key (" ++ type_repr round_key
                  ++ ") is not allowed")%string ;;;
           ret round_key
       | Raise e => raise e
       end
     else ret round_key) ;;
  lift (py_xor state round_key).

Definition round (state : Z) (round_key : pyval) (inverse : bool) : M Z :=
  if inverse then
    state <- lift (perm_layer state) ;;
    state <- lift (sbox_layer state inverse) ;;
    state <- add_round_key state round_key ;;
    ret state
  else
    state <- add_round_key state round_key ;;
    state <- lift (sbox_layer state inverse) ;;
    state <- lift (perm_layer state) ;;
    ret state.

(** ** Encryption and decryption *)

(** [not round_keys]: true of [None] and of an empty sequence. *)
Definition py_not (round_keys : option (list pyval)) : bool :=
  match round_keys with
  | None => true
  | Some [] => true
  | Some (_ :: _) => false
  end.

(** Slicing or indexing [None] raises [TypeError]. *)
Definition subscriptable (round_keys : option (list pyval))
  : result (list pyval) :=
  match round_keys with
  | Some keys => Ok keys
  | None => Raise TypeError
  end.

Definition output (state : Z) : M pyval :=
  fun w => (Ok (if _vec_out (self w) then int_to_vec state else PInt state), w).

Definition rounds : M Z := fun w => (Ok (_rounds (self w)), w).

Definition encrypt (plaintext : pyval) (round_keys : option (list pyval))
  : M pyval :=
  state <- lift (iter_to_int plaintext) ;;
  r <- rounds ;;
  round_keys <-
    (if py_not round_keys then
       keys <- generate_keys ;;
       set_round_keys keys ;;;
       get_round_keys
     else ret round_keys) ;;
  round_keys <- lift (subscriptable round_keys) ;;
  (* first r - 1 rounds *)
  state <- for_each (fun state key => round state key false)
             (py_slice_upto round_keys (r - 1)) state ;;
  (* last round *)
  key <- lift (py_index round_keys (r - 1)) ;;
  state <- add_round_key state key ;;
  state <- lift (sbox_layer state false) ;;
  key <- lift (py_index round_keys r) ;;
  state <- add_round_key state key ;;
  output state.

Definition decrypt (ciphertext : pyval) (round_keys : option (list pyval))
  : M pyval :=
  state <- lift (iter_to_int ciphertext) ;;
  lift (sanity_check state) ;;;
  r <- rounds ;;
  round_keys <-
    (match round_keys with
     | None =>
         cached <- get_round_keys ;;
         match cached with
         | None => raise NoKeyToDecrypt
         | Some keys => ret keys
         end
     | Some keys => ret keys
     end) ;;
  (* 'first' round *)
  key <- lift (py_index round_keys r) ;;
  state <- add_round_key state key ;;
  state <- lift (sbox_layer state true) ;;
  key <- lift (py_index round_keys (r - 1)) ;;
  state <- add_round_key state key ;;
  state <- for_each (fun state key => round state key true)
             (py_slice_downfrom round_keys (r - 2)) state ;;
  output state.

(** [__call__] *)
Definition call (input_ : pyval) (round_keys : option (list pyval)) (alg : Z)
  : M pyval :=
  if negb (alg =? 0) then decrypt input_ round_keys
  else encrypt input_ round_keys.

(** A freshly constructed engine in a world with the given entropy. *)
Definition fresh (rounds : Z) (rnd : nat -> Z) : world :=
  Build_world (init rounds false None) rnd [].

(** ** The round structure in the words of the design document

    Nibble [j] of [s] is [(s / 16^j) mod 16], and a state is put together
    from its nibbles by weights [16^j]; the permutation works on the list of
    the sixteen bits. *)
Module Spec.

Definition mix (s k : Z) : Z := Z.lxor s k.

Definition sbox (n : Z) : Z :=
  match n with
  | 0 => 6 | 1 => 4 | 2 => 12 | 3 => 5
  | 4 => 0 | 5 => 7 | 6 => 2 | 7 => 14
  | 8 => 1 | 9 => 15 | 10 => 3 | 11 => 13
  | 12 => 8 | 13 => 10 | 14 => 9 | 15 => 11
  | _ => 0
  end.

Definition pbox (i : Z) : Z := (i mod 4) * 4 + i / 4.

Definition sum_over (idx : list Z) (term : Z -> Z) : Z :=
  fold_right (fun i acc => term i + acc) 0 idx.

Definition substitute (s : Z) : Z :=
  sum_over [0; 1; 2; 3] (fun j => sbox ((s / 16 ^ j) mod 16) * 16 ^ j).

Fixpoint write {A} (l : list A) (n : nat) (x : A) : list A :=
  match l, n with
  | [], _ => []
  | _ :: l', O => x :: l'
  | y :: l', S n' => y :: write l' n' x
  end.

(** The bit at every position [i] of the input is written to position
    [pbox i] of an output of sixteen bits, least significant first. *)
Definition permute_bits (bit : Z -> bool) : list bool :=
  fold_left (fun out i => write out (Z.to_nat (pbox i)) (bit i))
    (range 16) (repeat false 16).

Definition permute (s : Z) : Z := bits_to_Z (permute_bits (Z.testbit s)).

Definition full_round (s k : Z) : Z := permute (substitute (mix s k)).

Definition final_round (s k k' : Z) : Z := mix (substitute (mix s k)) k'.

Definition key (ks : list Z) (i : Z) : Z := nth (Z.to_nat i) ks 0.

(** Full rounds with [k0 .. k(R-2)] in order, then the final round with
    [k(R-1)] and [kR]. *)
Definition encrypt (R : Z) (ks : list Z) (P : Z) : Z :=
  let s := fold_left (fun s i => full_round s (key ks i)) (range (R - 1)) P in
  final_round s (key ks (R - 1)) (key ks R).

End Spec.

Definition in_range (z : Z) : Prop := 0 <= z <= 0xffff.


(** ** Checkers used to settle finite statements by evaluation *)

Fixpoint all_from (z : Z) (n : nat) (f : Z -> bool) : bool :=
  match n with
  | O => true
  | S n' => f z && all_from (z + 1) n' f
  end.

(** Every integer of [[0, n)] passes [f]. *)
Definition all_below (n : Z) (f : Z -> bool) : bool :=
  all_from 0 (Z.to_nat n) f.

(** The bits of [perm_layer]'s result, read off the table: output bit [j] is
    set when some input bit [i] with [_pbox[i] = j] is. *)
Definition perm_bits (b : Z -> bool) (j : Z) : bool :=
  existsb (fun bp => (snd bp =? j) && b (fst bp)) (enumerate _pbox).

Definition sbox_table_check (n : Z) : bool :=
  (SBox_call _sbox n =? Spec.sbox n)
  && (0 <=? SBox_call _sbox n) && (SBox_call _sbox n <=? 15)
  && (0 <=? SBox_call (SBox_inverse _sbox) n)
  && (SBox_call (SBox_inverse _sbox) n <=? 15)
  && (SBox_call (SBox_inverse _sbox) (SBox_call _sbox n) =? n)
  && (SBox_call _sbox (SBox_call (SBox_inverse _sbox) n) =? n).

(** The nibble of [state] at bit offset [i], and four nibbles put back at
    offsets 0, 4, 8, 12, as the loop of [sbox_layer] does both. *)
Definition nibble_at (state i : Z) : Z := Z.land (Z.shiftr state i) 0xf.

Definition pack4 (a b c d : Z) : Z :=
  Z.lor (Z.lor (Z.lor (Z.lor 0 (Z.shiftl a 0)) (Z.shiftl b 4)) (Z.shiftl c 8))
        (Z.shiftl d 12).

(** An operation that leaves the instance and the entropy source as they
    were, whatever it returns or raises. *)
Definition keeps_engine {A} (m : M A) : Prop :=
  forall w, self (snd (m w)) = self w /\ entropy (snd (m w)) = entropy w.

(** What [generate_keys] draws in [w], and [w] once [encrypt] has drawn and
    cached it. *)
Definition drawn_keys (w : world) : list pyval :=
  map (fun i => PInt (entropy w i)) (seq 0 (Z.to_nat (_rounds (self w) + 1))).

Definition after_draw (w : world) : world :=
  Build_world
    (Build_cipher_four (_rounds (self w)) (_vec_out (self w))
       (Some (drawn_keys w)))
    (fun i => entropy w (Z.to_nat (_rounds (self w) + 1) + i)%nat)
    (stdout w).

(** A key object of numpy's 64-bit integer type holding 1: not an [int], not
    iterable, but with a reflected [^]. *)
Definition numpy_one : pyval :=
  PForeign "<class 'numpy.int64'>" (Some (fun state => Z.lxor state 1)).

(** ** The test script *)

(** [[vector(GF(2), ZZ(0x1).digits(2)) for i in range(rounds + 1)]] *)
Definition get_vec_keys (rounds : Z) : list pyval :=
  map (fun _ => int_to_vec 0x1) (range (rounds + 1)).

(** [correctness(enc, dec, P, K)], where [enc] and [dec] are the bound
    methods of two engines, each run in its own world: decrypt what was
    encrypted, bring the result and [P] to integers, compare. *)
Definition correctness (enc dec : world) (P : pyval) (K : option (list pyval))
  : result bool :=
  rbind (fst (encrypt P K enc)) (fun c =>
  rbind (fst (decrypt c K dec)) (fun res =>
  rbind (iter_to_int res) (fun res =>
  rbind (iter_to_int P) (fun P =>
  Ok (P =? res))))).

(** ** Vocabulary of the further properties *)

(** A block or key that converts to a 16-bit integer. *)
Definition value_in_range (v : pyval) : Prop :=
  exists z, iter_to_int v = Ok z /\ in_range z.

(** The integer form of a value that has one; any other value as it is. *)
Definition normalize (v : pyval) : pyval :=
  match iter_to_int v with
  | Ok z => PInt z
  | Raise _ => v
  end.

Definition rmap {A B} (f : A -> B) (r : result A) : result B :=
  match r with
  | Ok a => Ok (f a)
  | Raise e => Raise e
  end.

(** The bodies of [encrypt] and [decrypt] once the key sequence has been
    sliced and indexed: [front] is the slice the loop runs over, [ka] and
    [kb] the two lookups in the order the code makes them. *)
Definition last_round (ka kb : result pyval) (state : Z) : M pyval :=
  key <- lift ka ;;
  state <- add_round_key state key ;;
  state <- lift (sbox_layer state false) ;;
  key <- lift kb ;;
  state <- add_round_key state key ;;
  output state.

Definition encrypt_core (front : list pyval) (ka kb : result pyval) (state : Z)
  : M pyval :=
  state <- for_each (fun state key => round state key false) front state ;;
  last_round ka kb state.

Definition decrypt_core (front : list pyval) (kb ka : result pyval) (state : Z)
  : M pyval :=
  key <- lift kb ;;
  state <- add_round_key state key ;;
  state <- lift (sbox_layer state true) ;;
  key <- lift ka ;;
  state <- add_round_key state key ;;
  state <- for_each (fun state key => round state key true) front state ;;
  output state.

(** * Proofs *)

(** ** Evaluation over a finite range *)

Lemma all_from_spec (f : Z -> bool) (n : nat) :
  forall z, all_from z n f = true ->
  forall x, z <= x < z + Z.of_nat n -> f x = true.
Proof.
  induction n as [|n IH]; intros z H x Hx.
  - simpl in Hx. lia.
  - cbn [all_from] in H. apply andb_prop in H. destruct H as [Hz Hrest].
    destruct (Z.eq_dec x z) as [->|Hne]; [exact Hz|].
    apply (IH (z + 1) Hrest). lia.
Qed.

Lemma all_below_spec (n : Z) (f : Z -> bool) :
  all_below n f = true -> forall x, 0 <= x < n -> f x = true.
Proof.
  intros H x Hx. apply (all_from_spec f (Z.to_nat n) 0 H). lia.
Qed.

(** ** The 16-bit range *)

Lemma in_range_lt (z : Z) : in_range z <-> 0 <= z < 2 ^ 16.
Proof. unfold in_range. change (2 ^ 16) with 65536. lia. Qed.

Lemma sanity_check_in_range (z : Z) : in_range z -> sanity_check z = Ok tt.
Proof.
  unfold in_range, sanity_check. intros Hz.
  destruct (Z.eqb_spec z 0) as [->|Hnz]; [reflexivity|].
  cbn [negb andb]. change (0xffff + 1) with 65536.
  rewrite Z.mod_small by lia.
  destruct (Z.eqb_spec z 0); [contradiction|reflexivity].
Qed.

Lemma high_bits_clear (z : Z) :
  in_range z -> forall n, 16 <= n -> Z.testbit z n = false.
Proof.
  intros Hz n Hn. apply in_range_lt in Hz.
  destruct (Z.eq_dec z 0) as [->|Hnz]; [apply Z.bits_0|].
  apply Z.bits_above_log2; [lia|].
  assert (Z.log2 z < 16) by (apply Z.log2_lt_pow2; lia). lia.
Qed.

Lemma clear_high_bits_in_range (z : Z) :
  0 <= z -> (forall n, 16 <= n -> Z.testbit z n = false) -> in_range z.
Proof.
  intros Hz Hbits. apply in_range_lt. split; [exact Hz|].
  destruct (Z.eq_dec z 0) as [->|Hnz]; [reflexivity|].
  destruct (Z_lt_le_dec z (2 ^ 16)) as [Hlt|Hge]; [exact Hlt|exfalso].
  assert (Hlog : 16 <= Z.log2 z) by (apply Z.log2_le_pow2; lia).
  specialize (Hbits (Z.log2 z) Hlog).
  rewrite Z.bit_log2 in Hbits by lia. discriminate.
Qed.

Lemma lor_in_range (a b : Z) : in_range a -> in_range b -> in_range (Z.lor a b).
Proof.
  intros Ha Hb. apply clear_high_bits_in_range.
  - apply Z.lor_nonneg. unfold in_range in *. lia.
  - intros n Hn. rewrite Z.lor_spec, !high_bits_clear by assumption. reflexivity.
Qed.

Lemma lxor_in_range (a b : Z) : in_range a -> in_range b -> in_range (Z.lxor a b).
Proof.
  intros Ha Hb. apply clear_high_bits_in_range.
  - apply Z.lxor_nonneg. unfold in_range in *. lia.
  - intros n Hn. rewrite Z.lxor_spec, !high_bits_clear by assumption. reflexivity.
Qed.

Lemma nibble_bounds (state i : Z) : 0 <= nibble_at state i <= 15.
Proof.
  assert (E : nibble_at state i = Z.shiftr state i mod 16)
    by (apply (Z.land_ones _ 4); lia).
  rewrite E. pose proof (Z.mod_pos_bound (Z.shiftr state i) 16). lia.
Qed.

(** ** The substitution table *)

Lemma sbox_table_facts (n : Z) :
  0 <= n <= 15 -> sbox_table_check n = true.
Proof.
  intros Hn. apply (all_below_spec 16 sbox_table_check); [|lia].
  vm_compute. reflexivity.
Qed.

Ltac split_checks H :=
  repeat match type of H with
         | (_ && _)%bool = true =>
             let H1 := fresh H in
             apply andb_prop in H; destruct H as [H H1]
         end.

Lemma SBox_call_bounds (inverse : bool) (n : Z) :
  0 <= n <= 15 ->
  0 <= SBox_call (if inverse then SBox_inverse _sbox else _sbox) n <= 15.
Proof.
  intros Hn. pose proof (sbox_table_facts n Hn) as H.
  unfold sbox_table_check in H. split_checks H.
  destruct inverse; lia.
Qed.

Lemma shifted_nibble_in_range (v i : Z) :
  0 <= v <= 15 -> In i [0; 4; 8; 12] -> in_range (Z.shiftl v i).
Proof.
  intros Hv Hi. unfold in_range.
  cbn [In] in Hi.
  destruct Hi as [<-|[<-|[<-|[<-|[]]]]];
    rewrite Z.shiftl_mul_pow2 by lia;
    [change (2 ^ 0) with 1|change (2 ^ 4) with 16
    |change (2 ^ 8) with 256|change (2 ^ 12) with 4096]; lia.
Qed.

Lemma pack4_in_range (a b c d : Z) :
  0 <= a <= 15 -> 0 <= b <= 15 -> 0 <= c <= 15 -> 0 <= d <= 15 ->
  in_range (pack4 a b c d).
Proof.
  intros Ha Hb Hc Hd. unfold pack4.
  assert (H0 : in_range 0) by (unfold in_range; lia).
  repeat apply lor_in_range; try exact H0;
    apply shifted_nibble_in_range; try assumption; cbn [In]; tauto.
Qed.

Lemma sbox_layer_unfold (state : Z) (inverse : bool) :
  sanity_check state = Ok tt ->
  sbox_layer state inverse =
  let sbox := if inverse then SBox_inverse _sbox else _sbox in
  Ok (pack4 (SBox_call sbox (nibble_at state 0))
            (SBox_call sbox (nibble_at state 4))
            (SBox_call sbox (nibble_at state 8))
            (SBox_call sbox (nibble_at state 12))).
Proof. intros E. unfold sbox_layer. rewrite E. reflexivity. Qed.

Lemma sbox_layer_in_range (state : Z) (inverse : bool) :
  in_range state ->
  exists state', sbox_layer state inverse = Ok state' /\ in_range state'.
Proof.
  intros Hs.
  rewrite sbox_layer_unfold by now apply sanity_check_in_range.
  eexists. split; [reflexivity|].
  apply pack4_in_range; apply SBox_call_bounds; apply nibble_bounds.
Qed.

(** ** Nibbles, bit by bit *)

Lemma bits_above (k a n : Z) :
  0 <= a < 2 ^ k -> 0 <= k <= n -> Z.testbit a n = false.
Proof.
  intros Ha Hk.
  destruct (Z.eq_dec a 0) as [->|Hnz]; [apply Z.bits_0|].
  apply Z.bits_above_log2; [lia|].
  assert (Z.log2 a < k) by (apply Z.log2_lt_pow2; lia). lia.
Qed.

Lemma nibble_high_bits (a n : Z) : 0 <= a <= 15 -> 4 <= n -> Z.testbit a n = false.
Proof.
  intros Ha Hn. apply (bits_above 4); [change (2 ^ 4) with 16|]; lia.
Qed.

Lemma testbit_nibble_at (x j n : Z) :
  0 <= n -> Z.testbit (nibble_at x j) n = (n <? 4) && Z.testbit x (n + j).
Proof.
  intros Hn. unfold nibble_at. change 0xf with (Z.ones 4).
  rewrite Z.land_spec, Z.shiftr_spec, Z.testbit_ones_nonneg by lia.
  apply andb_comm.
Qed.

Lemma testbit_pack4 (a b c d n : Z) :
  0 <= n ->
  Z.testbit (pack4 a b c d) n =
  Z.testbit a n || Z.testbit b (n - 4) || Z.testbit c (n - 8)
  || Z.testbit d (n - 12).
Proof.
  intros Hn. unfold pack4.
  rewrite !Z.lor_spec, !Z.shiftl_spec, Z.bits_0, Z.sub_0_r by lia.
  reflexivity.
Qed.

(** Rewrites to [false] every bit that lies above a nibble or below zero. *)
Ltac clear_bits :=
  repeat match goal with
         | H : 0 <= ?a <= 15 |- context [Z.testbit ?a ?e] =>
             rewrite (nibble_high_bits a e H) by lia
         | |- context [Z.testbit ?a ?e] =>
             rewrite (Z.testbit_neg_r a e) by lia
         end.

Lemma nibble_at_pack4 (a b c d : Z) :
  0 <= a <= 15 -> 0 <= b <= 15 -> 0 <= c <= 15 -> 0 <= d <= 15 ->
  nibble_at (pack4 a b c d) 0 = a /\ nibble_at (pack4 a b c d) 4 = b /\
  nibble_at (pack4 a b c d) 8 = c /\ nibble_at (pack4 a b c d) 12 = d.
Proof.
  intros Ha Hb Hc Hd.
  repeat split; apply Z.bits_inj'; intros n Hn;
    rewrite testbit_nibble_at, testbit_pack4 by lia;
    (destruct (Z.ltb_spec n 4) as [Hlt|Hge]; cbn [andb];
     [clear_bits; rewrite ?Z.add_0_r, ?Z.add_simpl_r;
      destruct (Z.testbit _ n); reflexivity
     |clear_bits; reflexivity]).
Qed.

Lemma pack4_nibbles (s : Z) :
  in_range s ->
  pack4 (nibble_at s 0) (nibble_at s 4) (nibble_at s 8) (nibble_at s 12) = s.
Proof.
  intros Hs. apply Z.bits_inj'. intros n Hn.
  rewrite testbit_pack4 by lia.
  assert (Hcase : n < 4 \/ 4 <= n < 8 \/ 8 <= n < 12 \/ 12 <= n < 16 \/ 16 <= n)
    by lia.
  pose proof (nibble_bounds s 0) as B0. pose proof (nibble_bounds s 4) as B4.
  pose proof (nibble_bounds s 8) as B8. pose proof (nibble_bounds s 12) as B12.
  destruct Hcase as [H|[H|[H|[H|H]]]]; clear_bits;
    rewrite ?testbit_nibble_at by lia;
    rewrite ?Z.add_0_r, ?Z.sub_add;
    repeat match goal with
           | |- context [?x <? 4] => destruct (Z.ltb_spec x 4); try lia
           end;
    cbn [andb orb]; rewrite ?orb_false_r;
    try reflexivity.
  symmetry. now apply high_bits_clear.
Qed.

(** ** The substitution layer and its inverse *)

Lemma sbox_layer_roundtrip (s : Z) :
  in_range s ->
  exists c, sbox_layer s false = Ok c /\ in_range c /\ sbox_layer c true = Ok s.
Proof.
  intros Hs.
  destruct (sbox_layer_in_range s false Hs) as [c [Ec Hc]].
  exists c. split; [exact Ec|]. split; [exact Hc|].
  rewrite sbox_layer_unfold in Ec by now apply sanity_check_in_range.
  cbv zeta in Ec. injection Ec as Ec.
  rewrite sbox_layer_unfold by now apply sanity_check_in_range.
  cbv zeta.
  pose proof (nibble_bounds s 0) as B0. pose proof (nibble_bounds s 4) as B4.
  pose proof (nibble_bounds s 8) as B8. pose proof (nibble_bounds s 12) as B12.
  destruct (nibble_at_pack4 _ _ _ _
              (SBox_call_bounds false _ B0) (SBox_call_bounds false _ B4)
              (SBox_call_bounds false _ B8) (SBox_call_bounds false _ B12))
    as [N0 [N4 [N8 N12]]].
  cbv iota in N0, N4, N8, N12.
  rewrite <- Ec, N0, N4, N8, N12.
  assert (Hinv : forall n, 0 <= n <= 15 ->
            SBox_call (SBox_inverse _sbox) (SBox_call _sbox n) = n).
  { intros n Hn. pose proof (sbox_table_facts n Hn) as H.
    unfold sbox_table_check in H. split_checks H. lia. }
  rewrite !Hinv by assumption.
  f_equal. now apply pack4_nibbles.
Qed.

Lemma nibble_at_div (s i : Z) : 0 <= i -> nibble_at s i = (s / 2 ^ i) mod 16.
Proof.
  intros Hi. unfold nibble_at. change 0xf with (Z.ones 4).
  rewrite Z.land_ones, Z.shiftr_div_pow2 by lia. reflexivity.
Qed.

Lemma pack4_weights (a b c d : Z) :
  0 <= a <= 15 -> 0 <= b <= 15 -> 0 <= c <= 15 -> 0 <= d <= 15 ->
  pack4 a b c d = a + 16 * b + 256 * c + 4096 * d.
Proof.
  intros Ha Hb Hc Hd.
  set (t := a + 16 * b + 256 * c + 4096 * d).
  assert (Ht : in_range t) by (unfold in_range, t; lia).
  rewrite <- (pack4_nibbles t Ht).
  rewrite !nibble_at_div by lia.
  change (2 ^ 0) with 1. change (2 ^ 4) with 16.
  change (2 ^ 8) with 256. change (2 ^ 12) with 4096.
  f_equal; unfold t; Z.div_mod_to_equations; lia.
Qed.

Lemma sbox_layer_substitute (s : Z) :
  in_range s -> sbox_layer s false = Ok (Spec.substitute s).
Proof.
  intros Hs.
  rewrite sbox_layer_unfold by now apply sanity_check_in_range.
  cbv zeta. f_equal.
  pose proof (nibble_bounds s 0) as B0. pose proof (nibble_bounds s 4) as B4.
  pose proof (nibble_bounds s 8) as B8. pose proof (nibble_bounds s 12) as B12.
  rewrite pack4_weights by (apply (SBox_call_bounds false); assumption).
  assert (Htab : forall n, 0 <= n <= 15 -> SBox_call _sbox n = Spec.sbox n).
  { intros n Hn. pose proof (sbox_table_facts n Hn) as H.
    unfold sbox_table_check in H. split_checks H. lia. }
  rewrite !Htab by assumption.
  rewrite !nibble_at_div by lia.
  unfold Spec.substitute, Spec.sum_over. cbn [fold_right].
  change (2 ^ 0) with 1. change (2 ^ 4) with 16.
  change (2 ^ 8) with 256. change (2 ^ 12) with 4096.
  change (16 ^ 0) with 1. change (16 ^ 1) with 16.
  change (16 ^ 2) with 256. change (16 ^ 3) with 4096.
  lia.
Qed.

Lemma substitute_in_range (s : Z) : in_range s -> in_range (Spec.substitute s).
Proof.
  intros Hs. destruct (sbox_layer_in_range s false Hs) as [s' [E Hs']].
  rewrite (sbox_layer_substitute s Hs) in E. congruence.
Qed.

(** ** The permutation layer, bit by bit *)

Lemma enumerate_pbox :
  enumerate _pbox =
  [(0, 0); (1, 4); (2, 8); (3, 12); (4, 1); (5, 5); (6, 9); (7, 13);
   (8, 2); (9, 6); (10, 10); (11, 14); (12, 3); (13, 7); (14, 11); (15, 15)].
Proof. reflexivity. Qed.

Lemma cases16 (j : Z) :
  0 <= j <= 15 ->
  j = 0 \/ j = 1 \/ j = 2 \/ j = 3 \/ j = 4 \/ j = 5 \/ j = 6 \/ j = 7 \/
  j = 8 \/ j = 9 \/ j = 10 \/ j = 11 \/ j = 12 \/ j = 13 \/ j = 14 \/ j = 15.
Proof. lia. Qed.

Ltac each_of_16 j H :=
  let C := fresh "C" in
  pose proof (cases16 j H) as C;
  repeat (destruct C as [C|C]; [subst j|]); [..|subst j].

Lemma bit_test (state i : Z) :
  0 <= i -> negb (Z.land state (Z.shiftl 1 i) =? 0) = Z.testbit state i.
Proof.
  intros Hi. rewrite Z.shiftl_1_l.
  assert (E : Z.land state (2 ^ i) = if Z.testbit state i then 2 ^ i else 0).
  { apply Z.bits_inj'. intros n Hn.
    rewrite Z.land_spec, Z.pow2_bits_eqb by lia.
    destruct (Z.eqb_spec i n) as [->|Hne].
    - destruct (Z.testbit state n); cbn [andb];
        [rewrite Z.pow2_bits_true by lia|rewrite Z.bits_0]; reflexivity.
    - rewrite andb_false_r.
      destruct (Z.testbit state i);
        [rewrite Z.pow2_bits_false by lia|rewrite Z.bits_0]; reflexivity. }
  rewrite E. destruct (Z.testbit state i).
  - assert (0 < 2 ^ i) by (apply Z.pow_pos_nonneg; lia).
    destruct (Z.eqb_spec (2 ^ i) 0); [lia|reflexivity].
  - reflexivity.
Qed.

Section PermLoop.

Variable state : Z.

Let body (p_state : Z) (bp : Z * Z) : Z :=
  if negb (Z.land state (Z.shiftl 1 (fst bp)) =? 0)
  then Z.lor p_state (Z.shiftl 1 (snd bp))
  else p_state.

Lemma perm_loop_nonneg (l : list (Z * Z)) :
  forall acc, 0 <= acc -> 0 <= fold_left body l acc.
Proof.
  induction l as [|bp l IH]; intros acc Hacc; cbn [fold_left]; [exact Hacc|].
  apply IH. unfold body.
  destruct (negb _); [|exact Hacc].
  apply Z.lor_nonneg. split; [exact Hacc|].
  apply Z.shiftl_nonneg. lia.
Qed.

Lemma perm_loop_testbit (l : list (Z * Z)) :
  Forall (fun bp => 0 <= fst bp /\ 0 <= snd bp) l ->
  forall acc j, 0 <= j ->
  Z.testbit (fold_left body l acc) j =
  Z.testbit acc j
  || existsb (fun bp => (snd bp =? j) && Z.testbit state (fst bp)) l.
Proof.
  induction 1 as [|bp l [Hb Hp] _ IH]; intros acc j Hj; cbn [fold_left existsb].
  - now rewrite orb_false_r.
  - rewrite IH by exact Hj. unfold body.
    rewrite bit_test by exact Hb.
    destruct (Z.testbit state (fst bp)).
    + rewrite Z.lor_spec, Z.shiftl_1_l, Z.pow2_bits_eqb by exact Hp.
      rewrite andb_true_r, orb_assoc. reflexivity.
    + rewrite andb_false_r. reflexivity.
Qed.

End PermLoop.

Lemma pbox_entries_nonneg :
  Forall (fun bp : Z * Z => 0 <= fst bp /\ 0 <= snd bp) (enumerate _pbox).
Proof. rewrite enumerate_pbox. repeat constructor; cbn; lia. Qed.

Lemma perm_layer_bits (state : Z) :
  sanity_check state = Ok tt ->
  exists p, perm_layer state = Ok p /\ 0 <= p /\
            forall j, 0 <= j -> Z.testbit p j = perm_bits (Z.testbit state) j.
Proof.
  intros E. unfold perm_layer. rewrite E. cbn [rbind].
  eexists. split; [reflexivity|]. split.
  - apply perm_loop_nonneg. lia.
  - intros j Hj.
    rewrite perm_loop_testbit by (exact pbox_entries_nonneg || exact Hj).
    rewrite Z.bits_0. reflexivity.
Qed.

Lemma perm_bits_outside (b : Z -> bool) (j : Z) :
  j < 0 \/ 16 <= j -> perm_bits b j = false.
Proof.
  intros Hj. unfold perm_bits. rewrite enumerate_pbox.
  cbn [existsb fst snd].
  repeat match goal with
         | |- context [?k =? j] => destruct (Z.eqb_spec k j); [lia|]
         end.
  reflexivity.
Qed.

Lemma perm_bits_pbox (b : Z -> bool) (i : Z) :
  0 <= i <= 15 -> perm_bits b (Spec.pbox i) = b i.
Proof.
  intros Hi. unfold perm_bits. rewrite enumerate_pbox.
  each_of_16 i Hi; cbn; destruct (b _); reflexivity.
Qed.

Lemma pbox_involution (i : Z) :
  0 <= i <= 15 -> 0 <= Spec.pbox i <= 15 /\ Spec.pbox (Spec.pbox i) = i.
Proof.
  intros Hi. each_of_16 i Hi; cbn; lia.
Qed.

Lemma perm_bits_inside (b : Z -> bool) (j : Z) :
  0 <= j <= 15 -> perm_bits b j = b (Spec.pbox j).
Proof.
  intros Hj. destruct (pbox_involution j Hj) as [Hp Hpp].
  rewrite <- Hpp at 1. now apply perm_bits_pbox.
Qed.

Lemma perm_layer_in_range (state : Z) :
  in_range state ->
  exists p, perm_layer state = Ok p /\ in_range p /\
            forall j, 0 <= j -> Z.testbit p j = perm_bits (Z.testbit state) j.
Proof.
  intros Hs.
  destruct (perm_layer_bits state (sanity_check_in_range state Hs))
    as [p [Ep [Hp Hbits]]].
  exists p. split; [exact Ep|]. split; [|exact Hbits].
  apply clear_high_bits_in_range; [exact Hp|].
  intros n Hn. rewrite Hbits by lia. apply perm_bits_outside. lia.
Qed.

Lemma perm_layer_twice (state : Z) :
  in_range state ->
  exists p, perm_layer state = Ok p /\ in_range p /\ perm_layer p = Ok state.
Proof.
  intros Hs.
  destruct (perm_layer_in_range state Hs) as [p [Ep [Hp Hbits]]].
  exists p. split; [exact Ep|]. split; [exact Hp|].
  destruct (perm_layer_in_range p Hp) as [q [Eq [Hq Hbits']]].
  rewrite Eq. f_equal.
  apply Z.bits_inj'. intros n Hn. rewrite Hbits' by exact Hn.
  destruct (Z_le_gt_dec n 15) as [Hle|Hgt].
  - destruct (pbox_involution n (conj Hn Hle)) as [Hpn Hpp].
    rewrite perm_bits_inside by lia.
    rewrite Hbits by lia.
    rewrite perm_bits_inside by lia.
    now rewrite Hpp.
  - rewrite perm_bits_outside by lia.
    symmetry. apply high_bits_clear; [exact Hs|lia].
Qed.

Lemma testbit_bits_to_Z (l : list bool) :
  forall n, 0 <= n -> Z.testbit (bits_to_Z l) n = nth (Z.to_nat n) l false.
Proof.
  induction l as [|b l IH]; intros n Hn; cbn [bits_to_Z].
  - rewrite Z.bits_0. now destruct (Z.to_nat n).
  - rewrite Z.add_comm.
    destruct (Z.eq_dec n 0) as [->|Hnz].
    + rewrite Z.testbit_0_r. reflexivity.
    + replace n with (Z.succ (n - 1)) at 1 by lia.
      rewrite Z.testbit_succ_r, IH by lia.
      replace (Z.to_nat n) with (S (Z.to_nat (n - 1))) by lia.
      reflexivity.
Qed.

Lemma permute_bits_unfold (b : Z -> bool) :
  Spec.permute_bits b =
  [b 0; b 4; b 8; b 12; b 1; b 5; b 9; b 13;
   b 2; b 6; b 10; b 14; b 3; b 7; b 11; b 15].
Proof. reflexivity. Qed.

Lemma permute_bits_nth (b : Z -> bool) (j : Z) :
  0 <= j -> nth (Z.to_nat j) (Spec.permute_bits b) false = perm_bits b j.
Proof.
  intros Hj. rewrite permute_bits_unfold.
  destruct (Z_le_gt_dec j 15) as [Hle|Hgt].
  - unfold perm_bits. rewrite enumerate_pbox.
    each_of_16 j (conj Hj Hle); cbv; destruct (b _); reflexivity.
  - rewrite perm_bits_outside by lia.
    apply nth_overflow. cbn [List.length]. lia.
Qed.

Lemma perm_layer_permute (s : Z) :
  in_range s -> perm_layer s = Ok (Spec.permute s).
Proof.
  intros Hs. destruct (perm_layer_in_range s Hs) as [p [Ep [Hp Hbits]]].
  rewrite Ep. f_equal. apply Z.bits_inj'. intros n Hn.
  unfold Spec.permute.
  rewrite Hbits, testbit_bits_to_Z, permute_bits_nth by exact Hn.
  reflexivity.
Qed.

Lemma permute_in_range (s : Z) : in_range s -> in_range (Spec.permute s).
Proof.
  intros Hs. destruct (perm_layer_in_range s Hs) as [p [Ep [Hp _]]].
  rewrite (perm_layer_permute s Hs) in Ep. congruence.
Qed.

(** ** Running the monad *)

Lemma bind_ok {A B} (m : M A) (k : A -> M B) (w w' : world) (a : A) :
  m w = (Ok a, w') -> bind m k w = k a w'.
Proof. intros E. unfold bind. now rewrite E. Qed.

Lemma bind_lift_ok {A B} (a : A) (k : A -> M B) (w : world) :
  bind (lift (Ok a)) k w = k a w.
Proof. reflexivity. Qed.

Lemma bind_lift_raise {A B} (e : exn) (k : A -> M B) (w : world) :
  bind (lift (Raise e)) k w = (Raise e, w).
Proof. reflexivity. Qed.

Lemma for_each_app {A S} (body : S -> A -> M S) (l1 l2 : list A) :
  forall s w,
    for_each body (l1 ++ l2) s w =
    bind (for_each body l1 s) (for_each body l2) w.
Proof.
  induction l1 as [|x l1 IH]; intros s w; cbn [for_each app].
  - reflexivity.
  - unfold bind in *. destruct (body s x w) as [[s'|e] w']; [apply IH|].
    reflexivity.
Qed.

(** ** Key mixing and the round function on 16-bit values *)

Lemma add_round_key_int (state k : Z) (w : world) :
  sanity_check state = Ok tt ->
  add_round_key state (PInt k) w = (Ok (Z.lxor state k), w).
Proof.
  intros E. unfold add_round_key, bind, lift, ret. rewrite E. reflexivity.
Qed.

Lemma add_round_key_bits (state : Z) (bits : list bool) (w : world) :
  sanity_check state = Ok tt ->
  add_round_key state (PBits bits) w = (Ok (Z.lxor state (bits_to_Z bits)), w).
Proof.
  intros E. unfold add_round_key, bind, lift, ret. rewrite E. reflexivity.
Qed.

Lemma lxor_twice (s k : Z) : Z.lxor (Z.lxor s k) k = s.
Proof. now rewrite Z.lxor_assoc, Z.lxor_nilpotent, Z.lxor_0_r. Qed.

Lemma full_round_in_range (s k : Z) :
  in_range s -> in_range k -> in_range (Spec.full_round s k).
Proof.
  intros Hs Hk. unfold Spec.full_round, Spec.mix.
  apply permute_in_range, substitute_in_range, lxor_in_range; assumption.
Qed.

Lemma round_forward (state k : Z) (w : world) :
  in_range state -> in_range k ->
  round state (PInt k) false w = (Ok (Spec.full_round state k), w).
Proof.
  intros Hs Hk. unfold round.
  pose proof (lxor_in_range state k Hs Hk) as Hx.
  rewrite (bind_ok _ _ w w (Z.lxor state k))
    by (apply add_round_key_int, sanity_check_in_range, Hs).
  unfold bind, lift, ret.
  rewrite sbox_layer_substitute by exact Hx.
  rewrite perm_layer_permute by (apply substitute_in_range, Hx).
  reflexivity.
Qed.

Lemma round_inverse (state k : Z) (w : world) :
  in_range state -> in_range k ->
  round (Spec.full_round state k) (PInt k) true w = (Ok state, w).
Proof.
  intros Hs Hk. unfold round, Spec.full_round, Spec.mix.
  pose proof (lxor_in_range state k Hs Hk) as Hx.
  pose proof (substitute_in_range _ Hx) as Hsub.
  destruct (perm_layer_twice _ Hsub) as [p [Ep [_ Eback]]].
  rewrite perm_layer_permute in Ep by exact Hsub. injection Ep as <-.
  destruct (sbox_layer_roundtrip _ Hx) as [c [Ec [_ Einv]]].
  rewrite sbox_layer_substitute in Ec by exact Hx. injection Ec as <-.
  unfold bind at 1 2, lift. rewrite Eback, Einv.
  rewrite (bind_ok _ _ w w (Z.lxor (Z.lxor state k) k))
    by (apply add_round_key_int, sanity_check_in_range, Hx).
  unfold ret. now rewrite lxor_twice.
Qed.

Lemma full_rounds_in_range (ks : list Z) :
  Forall in_range ks ->
  forall s, in_range s -> in_range (fold_left Spec.full_round ks s).
Proof.
  induction 1 as [|k ks Hk _ IH]; intros s Hs; cbn [fold_left]; [exact Hs|].
  apply IH. now apply full_round_in_range.
Qed.

Lemma rounds_forward (ks : list Z) (w : world) :
  Forall in_range ks ->
  forall s, in_range s ->
  for_each (fun state key => round state key false) (map PInt ks) s w =
  (Ok (fold_left Spec.full_round ks s), w).
Proof.
  induction 1 as [|k ks Hk _ IH]; intros s Hs; cbn [for_each map fold_left].
  - reflexivity.
  - rewrite (bind_ok _ _ w w (Spec.full_round s k)) by now apply round_forward.
    apply IH. now apply full_round_in_range.
Qed.

Lemma rounds_inverse (ks : list Z) (w : world) :
  Forall in_range ks ->
  forall s, in_range s ->
  for_each (fun state key => round state key true) (map PInt (rev ks))
    (fold_left Spec.full_round ks s) w = (Ok s, w).
Proof.
  induction 1 as [|k ks Hk _ IH]; intros s Hs; cbn [rev fold_left].
  - reflexivity.
  - rewrite map_app, for_each_app.
    rewrite (bind_ok _ _ w w (Spec.full_round s k))
      by (apply IH; now apply full_round_in_range).
    cbn [map for_each].
    rewrite (bind_ok _ _ w w s) by now apply round_inverse.
    reflexivity.
Qed.

(** ** Python's indexing and slicing on key sequences *)

Lemma len_map {A B} (f : A -> B) (l : list A) : len (map f l) = len l.
Proof. unfold len. now rewrite length_map. Qed.

Lemma py_index_map_int (ks : list Z) (i : Z) :
  0 <= i < len ks -> py_index (map PInt ks) i = Ok (PInt (Spec.key ks i)).
Proof.
  intros Hi. unfold py_index. rewrite len_map.
  destruct (Z.ltb_spec i 0); [lia|].
  destruct (Z.leb_spec 0 i); [|lia].
  destruct (Z.ltb_spec i (len ks)); [|lia].
  cbn [andb]. unfold len in Hi.
  rewrite nth_error_map, (nth_error_nth' ks 0) by lia.
  reflexivity.
Qed.

Lemma py_index_beyond {A} (l : list A) (i : Z) :
  0 <= i -> len l <= i -> py_index l i = Raise IndexError.
Proof.
  intros H0 Hi. unfold py_index.
  destruct (Z.ltb_spec i 0); [lia|].
  destruct (Z.ltb_spec i (len l)); [lia|].
  now rewrite andb_false_r.
Qed.

Lemma py_slice_upto_firstn {A} (l : list A) (n : Z) :
  0 <= n -> py_slice_upto l n = firstn (Z.to_nat n) l.
Proof.
  intros Hn. unfold py_slice_upto.
  destruct (Z.ltb_spec n 0); [lia|].
  destruct (Z_le_gt_dec n (len l)) as [Hle|Hgt].
  - now rewrite Z.min_l by lia.
  - rewrite Z.min_r by lia. unfold len in *.
    rewrite !firstn_all2 by lia. reflexivity.
Qed.

Lemma py_slice_downfrom_firstn {A} (l : list A) (n : Z) :
  0 <= n -> py_slice_downfrom l n = rev (firstn (Z.to_nat (n + 1)) l).
Proof.
  intros Hn. unfold py_slice_downfrom.
  destruct (Z.ltb_spec n 0); [lia|].
  destruct (Z_le_gt_dec n (len l - 1)) as [Hle|Hgt].
  - now rewrite Z.min_l by lia.
  - rewrite Z.min_r by lia. unfold len in *.
    rewrite !firstn_all2 by lia. reflexivity.
Qed.

Lemma fold_left_map {A B C} (f : A -> B -> A) (g : C -> B) (l : list C) :
  forall a, fold_left f (map g l) a = fold_left (fun a x => f a (g x)) l a.
Proof. induction l as [|x l IH]; intros a; cbn; [reflexivity|apply IH]. Qed.

Lemma nth_seq_firstn {A} (d : A) (l : list A) :
  forall n, (n <= List.length l)%nat ->
  map (fun i => nth i l d) (seq 0 n) = firstn n l.
Proof.
  induction l as [|x l IH]; intros [|n] Hn; cbn [List.length] in Hn;
    try reflexivity; try lia.
  cbn [seq map firstn nth]. f_equal.
  rewrite <- seq_shift, map_map. cbn [nth]. apply IH. lia.
Qed.

Lemma keys_by_index (ks : list Z) (n : Z) :
  n <= len ks -> map (Spec.key ks) (range n) = firstn (Z.to_nat n) ks.
Proof.
  intros Hn. unfold range, Spec.key. rewrite map_map.
  rewrite <- (nth_seq_firstn 0) by (unfold len in Hn; lia).
  apply map_ext. intros i. now rewrite Nat2Z.id.
Qed.

Lemma Forall_firstn {A} (P : A -> Prop) (l : list A) (n : nat) :
  Forall P l -> Forall P (firstn n l).
Proof.
  intros H. revert n. induction H as [|x l Hx _ IH]; intros [|n]; cbn;
    constructor; [exact Hx|apply IH].
Qed.

Lemma key_in_range (ks : list Z) (i : Z) :
  Forall in_range ks -> in_range (Spec.key ks i).
Proof.
  intros H. unfold Spec.key.
  destruct (nth_in_or_default (Z.to_nat i) ks 0) as [Hin| ->].
  - rewrite Forall_forall in H. now apply H.
  - unfold in_range. lia.
Qed.

(** The state before the last round, in the words of the design. *)
Lemma spec_full_rounds (R : Z) (ks : list Z) (P : Z) :
  R - 1 <= len ks ->
  fold_left (fun s i => Spec.full_round s (Spec.key ks i)) (range (R - 1)) P =
  fold_left Spec.full_round (firstn (Z.to_nat (R - 1)) ks) P.
Proof.
  intros H. rewrite <- keys_by_index by exact H.
  now rewrite fold_left_map.
Qed.

Lemma py_not_keys (ks : list Z) :
  0 < len ks -> py_not (Some (map PInt ks)) = false.
Proof. destruct ks; [cbn; lia|reflexivity]. Qed.

Lemma encrypt_rounds_gen (w : world) (R : Z) (ks : list Z) (P : Z) :
  _rounds (self w) = R -> 1 <= R -> len ks = R + 1 ->
  Forall in_range ks -> in_range P ->
  encrypt (PInt P) (Some (map PInt ks)) w =
  output (Spec.encrypt R ks P) w /\ in_range (Spec.encrypt R ks P).
Proof.
  intros HR H1 Hlen Hks HP.
  set (front := firstn (Z.to_nat (R - 1)) ks).
  set (s := fold_left Spec.full_round front P).
  assert (Hs : in_range s)
    by (apply full_rounds_in_range; [now apply Forall_firstn|exact HP]).
  assert (Henc : Spec.encrypt R ks P =
                 Spec.final_round s (Spec.key ks (R - 1)) (Spec.key ks R)).
  { unfold Spec.encrypt. cbv zeta. now rewrite spec_full_rounds by lia. }
  pose proof (key_in_range ks (R - 1) Hks) as Hka.
  pose proof (key_in_range ks R Hks) as Hkb.
  pose proof (lxor_in_range _ _ Hs Hka) as Hx.
  pose proof (substitute_in_range _ Hx) as Hsub.
  rewrite Henc. unfold Spec.final_round, Spec.mix. split.
  2: { now apply lxor_in_range. }
  unfold encrypt. cbn [iter_to_int].
  rewrite (bind_ok _ _ w w P) by reflexivity.
  rewrite (bind_ok _ _ w w R) by (unfold rounds; now rewrite HR).
  rewrite py_not_keys by lia.
  rewrite (bind_ok _ _ w w (Some (map PInt ks))) by reflexivity.
  rewrite (bind_ok _ _ w w (map PInt ks)) by reflexivity.
  rewrite py_slice_upto_firstn, firstn_map by lia.
  rewrite (bind_ok _ _ w w s)
    by (apply rounds_forward; [now apply Forall_firstn|exact HP]).
  rewrite !py_index_map_int by lia.
  rewrite (bind_ok _ _ w w (PInt (Spec.key ks (R - 1)))) by reflexivity.
  rewrite (bind_ok _ _ w w (Z.lxor s (Spec.key ks (R - 1))))
    by (apply add_round_key_int, sanity_check_in_range, Hs).
  rewrite sbox_layer_substitute by exact Hx.
  rewrite (bind_ok _ _ w w (Spec.substitute (Z.lxor s (Spec.key ks (R - 1)))))
    by reflexivity.
  rewrite (bind_ok _ _ w w (PInt (Spec.key ks R))) by reflexivity.
  rewrite (bind_ok _ _ w w
             (Z.lxor (Spec.substitute (Z.lxor s (Spec.key ks (R - 1))))
                     (Spec.key ks R)))
    by (apply add_round_key_int, sanity_check_in_range, Hsub).
  reflexivity.
Qed.

Lemma sbox_layer_inverse_substitute (x : Z) :
  in_range x -> sbox_layer (Spec.substitute x) true = Ok x.
Proof.
  intros Hx. destruct (sbox_layer_roundtrip x Hx) as [c [Ec [_ Einv]]].
  rewrite sbox_layer_substitute in Ec by exact Hx. now injection Ec as <-.
Qed.

Lemma bits_to_Z_digits2 (z : Z) : 0 <= z -> bits_to_Z (digits2 z) = z.
Proof.
  intros Hz. destruct z as [|p|p]; [reflexivity| |lia].
  cbn [digits2]. induction p as [p IH|p IH|]; cbn [pos_digits bits_to_Z Z.b2z];
    [rewrite IH|rewrite IH|]; lia.
Qed.

Lemma iter_to_int_output (z : Z) (w : world) :
  0 <= z -> exists c, output z w = (Ok c, w) /\ iter_to_int c = Ok z.
Proof.
  intros Hz. unfold output. eexists. split; [reflexivity|].
  destruct (_vec_out (self w)); cbn [iter_to_int int_to_vec];
    [now rewrite bits_to_Z_digits2|reflexivity].
Qed.

Lemma decrypt_rounds_gen (w : world) (R : Z) (ks : list Z) (P : Z) (C : pyval) :
  _rounds (self w) = R -> 2 <= R -> len ks = R + 1 ->
  Forall in_range ks -> in_range P ->
  iter_to_int C = Ok (Spec.encrypt R ks P) ->
  decrypt C (Some (map PInt ks)) w = output P w.
Proof.
  intros HR H2 Hlen Hks HP HC.
  set (front := firstn (Z.to_nat (R - 1)) ks).
  set (s := fold_left Spec.full_round front P).
  assert (Hfront : Forall in_range front) by now apply Forall_firstn.
  assert (Hs : in_range s) by now apply full_rounds_in_range.
  assert (Henc : Spec.encrypt R ks P =
                 Spec.final_round s (Spec.key ks (R - 1)) (Spec.key ks R)).
  { unfold Spec.encrypt. cbv zeta. now rewrite spec_full_rounds by lia. }
  pose proof (key_in_range ks (R - 1) Hks) as Hka.
  pose proof (key_in_range ks R Hks) as Hkb.
  pose proof (lxor_in_range _ _ Hs Hka) as Hx.
  pose proof (substitute_in_range _ Hx) as Hsub.
  pose proof (lxor_in_range _ _ Hsub Hkb) as Hc.
  rewrite Henc in HC. unfold Spec.final_round, Spec.mix in HC.
  unfold decrypt. rewrite HC, bind_lift_ok.
  rewrite (sanity_check_in_range _ Hc), bind_lift_ok.
  rewrite (bind_ok _ _ w w R) by (unfold rounds; now rewrite HR).
  rewrite (bind_ok _ _ w w (map PInt ks)) by reflexivity.
  rewrite !py_index_map_int by lia.
  rewrite (bind_ok _ _ w w (PInt (Spec.key ks R))) by reflexivity.
  rewrite (bind_ok _ _ w w (Spec.substitute (Z.lxor s (Spec.key ks (R - 1)))))
    by (rewrite add_round_key_int by (apply sanity_check_in_range, Hc);
        now rewrite lxor_twice).
  rewrite sbox_layer_inverse_substitute by exact Hx.
  rewrite (bind_ok _ _ w w (Z.lxor s (Spec.key ks (R - 1)))) by reflexivity.
  rewrite (bind_ok _ _ w w (PInt (Spec.key ks (R - 1)))) by reflexivity.
  rewrite (bind_ok _ _ w w s)
    by (rewrite add_round_key_int by (apply sanity_check_in_range, Hx);
        now rewrite lxor_twice).
  rewrite py_slice_downfrom_firstn by lia.
  replace (R - 2 + 1) with (R - 1) by lia.
  rewrite firstn_map, <- map_rev.
  rewrite (bind_ok _ _ w w P) by now apply rounds_inverse.
  reflexivity.
Qed.

(** With two rounds or more, decryption undoes encryption, in either output
    format. *)
Lemma roundtrip_two_or_more_rounds (w : world) (R : Z) (ks : list Z) (P : Z) :
  _rounds (self w) = R -> 2 <= R -> len ks = R + 1 ->
  Forall in_range ks -> in_range P ->
  exists C P',
    encrypt (PInt P) (Some (map PInt ks)) w = (Ok C, w) /\
    decrypt C (Some (map PInt ks)) w = (Ok P', w) /\
    iter_to_int P' = Ok P /\
    (_vec_out (self w) = false -> P' = PInt P).
Proof.
  intros HR H2 Hlen Hks HP.
  destruct (encrypt_rounds_gen w R ks P HR ltac:(lia) Hlen Hks HP)
    as [Eenc Hc].
  destruct (iter_to_int_output (Spec.encrypt R ks P) w) as [C [EC HC]];
    [unfold in_range in Hc; lia|].
  destruct (iter_to_int_output P w) as [P' [EP' HP']];
    [unfold in_range in HP; lia|].
  exists C, P'. rewrite Eenc, EC.
  rewrite (decrypt_rounds_gen w R ks P C HR H2 Hlen Hks HP HC), EP'.
  repeat split; [exact HP'|].
  intros Hvec. unfold output in EP'. rewrite Hvec in EP'. congruence.
Qed.

(** ** What the operations do to the engine *)

Create HintDb keeps.

Lemma keeps_ret {A} (a : A) : keeps_engine (ret a).
Proof. intros w. split; reflexivity. Qed.

Lemma keeps_raise {A} (e : exn) : keeps_engine (@raise A e).
Proof. intros w. split; reflexivity. Qed.

Lemma keeps_lift {A} (r : result A) : keeps_engine (lift r).
Proof. intros w. split; reflexivity. Qed.

Lemma keeps_print (line : string) : keeps_engine (print line).
Proof. intros w. split; reflexivity. Qed.

Lemma keeps_rounds : keeps_engine rounds.
Proof. intros w. split; reflexivity. Qed.

Lemma keeps_get_round_keys : keeps_engine get_round_keys.
Proof. intros w. split; reflexivity. Qed.

Lemma keeps_output (state : Z) : keeps_engine (output state).
Proof. intros w. split; reflexivity. Qed.

Lemma keeps_bind {A B} (m : M A) (k : A -> M B) :
  keeps_engine m -> (forall a, keeps_engine (k a)) -> keeps_engine (bind m k).
Proof.
  intros Hm Hk w. unfold bind. specialize (Hm w).
  destruct (m w) as [[a|e] w1]; cbn [snd] in *.
  - destruct (Hk a w1) as [H1 H2]. destruct Hm as [H3 H4].
    rewrite H1, H2. now split.
  - exact Hm.
Qed.

#[local] Hint Resolve keeps_ret keeps_raise keeps_lift keeps_print keeps_rounds
  keeps_get_round_keys keeps_output : keeps.

Ltac keeps_step :=
  repeat first [solve [auto with keeps] | apply keeps_bind; [|intro]].

Lemma keeps_add_round_key (state : Z) (key : pyval) :
  keeps_engine (add_round_key state key).
Proof. unfold add_round_key. destruct key; keeps_step. Qed.

#[local] Hint Resolve keeps_add_round_key : keeps.

Lemma keeps_round (state : Z) (key : pyval) (inverse : bool) :
  keeps_engine (round state key inverse).
Proof. unfold round. destruct inverse; keeps_step. Qed.

#[local] Hint Resolve keeps_round : keeps.

Lemma keeps_for_each {A S} (body : S -> A -> M S) (l : list A) :
  (forall s x, keeps_engine (body s x)) ->
  forall s, keeps_engine (for_each body l s).
Proof.
  intros Hbody. induction l as [|x l IH]; intros s; cbn [for_each].
  - apply keeps_ret.
  - apply keeps_bind; [apply Hbody|exact IH].
Qed.

Lemma keeps_decrypt (ciphertext : pyval) (round_keys : option (list pyval)) :
  keeps_engine (decrypt ciphertext round_keys).
Proof.
  unfold decrypt. keeps_step.
  - destruct round_keys; [auto with keeps|].
    apply keeps_bind; [auto with keeps|]. intros [keys|]; auto with keeps.
  - apply keeps_for_each. auto with keeps.
Qed.

Lemma keeps_encrypt_with_keys (plaintext : pyval) (keys : list pyval) :
  py_not (Some keys) = false -> keeps_engine (encrypt plaintext (Some keys)).
Proof.
  intros Hk. unfold encrypt. rewrite Hk. keeps_step.
  apply keeps_for_each. auto with keeps.
Qed.

Lemma len_drawn_keys (w : world) :
  0 <= _rounds (self w) -> len (drawn_keys w) = _rounds (self w) + 1.
Proof.
  intros H. unfold len, drawn_keys. rewrite length_map, length_seq. lia.
Qed.

Lemma encrypt_keyless (w : world) (p : pyval) (z : Z)
  (round_keys : option (list pyval)) :
  0 <= _rounds (self w) -> iter_to_int p = Ok z -> py_not round_keys = true ->
  encrypt p round_keys w = encrypt p (Some (drawn_keys w)) (after_draw w).
Proof.
  intros HR Hp Hnot.
  assert (Hlen := len_drawn_keys w HR).
  assert (Hnot' : py_not (Some (drawn_keys w)) = false).
  { destruct (drawn_keys w); [cbn in Hlen; lia|reflexivity]. }
  unfold encrypt. rewrite Hp, Hnot, Hnot', !bind_lift_ok.
  rewrite (bind_ok _ _ w w (_rounds (self w))) by reflexivity.
  rewrite (bind_ok _ _ (after_draw w) (after_draw w) (_rounds (self w)))
    by reflexivity.
  rewrite (bind_ok _ _ w (after_draw w) (Some (drawn_keys w))).
  - reflexivity.
  - unfold bind, generate_keys, set_round_keys, get_round_keys.
    cbn [self entropy stdout].
    fold (drawn_keys w). rewrite Hlen.
    destruct (Z.ltb_spec (_rounds (self w) + 1) (_rounds (self w))); [lia|].
    reflexivity.
Qed.

(** ** The scenarios of the test script *)

Example roundtrip_5_rounds (rnd : nat -> Z) :
  encrypt (PInt 0xffff) (Some (map PInt [1; 1; 1; 1; 1; 1])) (fresh 5 rnd)
  = (Ok (PInt 0x6c19), fresh 5 rnd) /\
  decrypt (PInt 0x6c19) (Some (map PInt [1; 1; 1; 1; 1; 1])) (fresh 5 rnd)
  = (Ok (PInt 0xffff), fresh 5 rnd).
Proof. split; reflexivity. Qed.

Example roundtrip_6_rounds (rnd : nat -> Z) :
  encrypt (PInt 0xffff) (Some (map PInt [1; 1; 1; 1; 1; 1; 1])) (fresh 6 rnd)
  = (Ok (PInt 0x7814), fresh 6 rnd) /\
  decrypt (PInt 0x7814) (Some (map PInt [1; 1; 1; 1; 1; 1; 1])) (fresh 6 rnd)
  = (Ok (PInt 0xffff), fresh 6 rnd).
Proof. split; reflexivity. Qed.

(** * The claims *)

(** C1. With one round, decryption does not undo encryption: under the keys
    [1, 1] the engine encrypts 0xffff to 0xbbb8 and decrypts that to 0x9446.
    The slice [round_keys[self._rounds-2::-1]] of [decrypt] starts at index
    -1 when [rounds] is 1, that is at the last key, so it is the whole key
    list reversed, and both keys are run through an inverse round after the
    last round has been undone.  (With two rounds or more the round trip
    holds: [roundtrip_two_or_more_rounds].) *)
Theorem one_round_decrypt_misses_plaintext (rnd : nat -> Z) (k0 k1 : pyval) :
  py_slice_downfrom [k0; k1] (1 - 2) = [k1; k0] /\
  encrypt (PInt 0xffff) (Some [PInt 1; PInt 1]) (fresh 1 rnd)
  = (Ok (PInt 0xbbb8), fresh 1 rnd) /\
  decrypt (PInt 0xbbb8) (Some [PInt 1; PInt 1]) (fresh 1 rnd)
  = (Ok (PInt 0x9446), fresh 1 rnd).
Proof. repeat split. Qed.

(** C2. For an engine with [R >= 1] rounds and [R+1] keys in range, [encrypt]
    returns the state obtained by the full round (mix, substitute, permute)
    under [k0 .. k(R-2)] in order, followed by the final round (mix with
    [k(R-1)], substitute, mix with [kR]); that state is a 16-bit value,
    handed back in the engine's output format, and the engine is left as it
    was. *)
Theorem encrypt_follows_round_structure
  (w : world) (R : Z) (ks : list Z) (P : Z) :
  _rounds (self w) = R -> 1 <= R -> len ks = R + 1 ->
  Forall in_range ks -> in_range P ->
  encrypt (PInt P) (Some (map PInt ks)) w
  = (Ok (if _vec_out (self w) then int_to_vec (Spec.encrypt R ks P)
         else PInt (Spec.encrypt R ks P)), w)
  /\ in_range (Spec.encrypt R ks P).
Proof.
  intros HR H1 Hlen Hks HP.
  destruct (encrypt_rounds_gen w R ks P HR H1 Hlen Hks HP) as [E Hc].
  split; [rewrite E; reflexivity|exact Hc].
Qed.

Lemma encrypt_follows_round_structure_witness :
  _rounds (self (fresh 5 (fun _ => 0))) = 5 /\ 1 <= 5 /\
  len [1; 2; 3; 4; 5; 6] = 5 + 1 /\
  Forall in_range [1; 2; 3; 4; 5; 6] /\ in_range 0xffff /\
  encrypt (PInt 0xffff) (Some (map PInt [1; 2; 3; 4; 5; 6]))
    (fresh 5 (fun _ => 0))
  = (Ok (PInt (Spec.encrypt 5 [1; 2; 3; 4; 5; 6] 0xffff)),
     fresh 5 (fun _ => 0))
  /\ in_range (Spec.encrypt 5 [1; 2; 3; 4; 5; 6] 0xffff).
Proof.
  assert (Hks : Forall in_range [1; 2; 3; 4; 5; 6])
    by (repeat constructor; unfold in_range; lia).
  assert (HP : in_range 0xffff) by (unfold in_range; lia).
  assert (H1 : 1 <= 5) by lia.
  exact (conj eq_refl (conj H1 (conj eq_refl (conj Hks (conj HP
           (encrypt_follows_round_structure (fresh 5 (fun _ => 0)) 5
              [1; 2; 3; 4; 5; 6] 0xffff eq_refl H1 eq_refl Hks HP)))))).
Defined.

(** C3, as the code has it.  With a valid block and keys in range, a key
    sequence shorter than [rounds+1] makes [decrypt] raise [IndexError] (the
    out-of-range lookup in the sequence), and makes [encrypt] raise it too
    unless the sequence is empty; the engine is left as it was. *)
Theorem short_key_sequence_raises
  (w : world) (R : Z) (ks : list Z) (P : Z) :
  _rounds (self w) = R -> 1 <= R -> len ks < R + 1 ->
  Forall in_range ks -> in_range P ->
  (ks <> [] ->
   encrypt (PInt P) (Some (map PInt ks)) w = (Raise IndexError, w)) /\
  decrypt (PInt P) (Some (map PInt ks)) w = (Raise IndexError, w).
Proof.
  intros HR H1 Hlen Hks HP. split.
  - intros Hne.
    assert (Hpos : 0 < len ks) by (destruct ks; [contradiction|cbn; lia]).
    set (s := fold_left Spec.full_round (firstn (Z.to_nat (R - 1)) ks) P).
    assert (Hs : in_range s)
      by (apply full_rounds_in_range; [now apply Forall_firstn|exact HP]).
    unfold encrypt. cbn [iter_to_int]. rewrite bind_lift_ok.
    rewrite (bind_ok _ _ w w R) by (unfold rounds; now rewrite HR).
    rewrite py_not_keys by exact Hpos.
    rewrite (bind_ok _ _ w w (Some (map PInt ks))) by reflexivity.
    cbn [subscriptable]. rewrite bind_lift_ok.
    rewrite py_slice_upto_firstn, firstn_map by lia.
    rewrite (bind_ok _ _ w w s)
      by (apply rounds_forward; [now apply Forall_firstn|exact HP]).
    destruct (Z_le_gt_dec (len ks) (R - 1)) as [Hle|Hgt].
    + rewrite py_index_beyond by (rewrite ?len_map; lia).
      apply bind_lift_raise.
    + rewrite py_index_map_int, bind_lift_ok by lia.
      rewrite (bind_ok _ _ w w (Z.lxor s (Spec.key ks (R - 1))))
        by (apply add_round_key_int, sanity_check_in_range, Hs).
      rewrite sbox_layer_substitute, bind_lift_ok
        by (apply lxor_in_range; [exact Hs|now apply key_in_range]).
      rewrite py_index_beyond by (rewrite ?len_map; lia).
      apply bind_lift_raise.
  - unfold decrypt. cbn [iter_to_int]. rewrite bind_lift_ok.
    rewrite (sanity_check_in_range P HP), bind_lift_ok.
    rewrite (bind_ok _ _ w w R) by (unfold rounds; now rewrite HR).
    rewrite (bind_ok _ _ w w (map PInt ks)) by reflexivity.
    rewrite py_index_beyond by (rewrite ?len_map; lia).
    apply bind_lift_raise.
Qed.

Lemma short_key_sequence_raises_witness :
  _rounds (self (fresh 5 (fun _ => 0))) = 5 /\ 1 <= 5 /\
  len [1; 2; 3] < 5 + 1 /\ Forall in_range [1; 2; 3] /\ in_range 7 /\
  [1; 2; 3] <> [] /\
  encrypt (PInt 7) (Some (map PInt [1; 2; 3])) (fresh 5 (fun _ => 0))
  = (Raise IndexError, fresh 5 (fun _ => 0)) /\
  decrypt (PInt 7) (Some (map PInt [1; 2; 3])) (fresh 5 (fun _ => 0))
  = (Raise IndexError, fresh 5 (fun _ => 0)).
Proof.
  assert (Hks : Forall in_range [1; 2; 3])
    by (repeat constructor; unfold in_range; lia).
  assert (HP : in_range 7) by (unfold in_range; lia).
  assert (Hlen : len [1; 2; 3] < 5 + 1) by (cbn; lia).
  assert (H1 : 1 <= 5) by lia.
  assert (Hne : [1; 2; 3] <> @nil Z) by discriminate.
  pose proof (short_key_sequence_raises (fresh 5 (fun _ => 0)) 5 [1; 2; 3] 7
                eq_refl H1 Hlen Hks HP) as H.
  exact (conj eq_refl (conj H1 (conj Hlen (conj Hks (conj HP (conj Hne
           (conj (proj1 H Hne) (proj2 H)))))))).
Defined.

(** C3 as stated fails: an empty key sequence is shorter than [rounds+1],
    yet [encrypt] takes it for omitted keys, generates a set and returns a
    ciphertext. *)
Lemma encrypt_empty_key_sequence_succeeds :
  len (@nil pyval) < _rounds (self (fresh 5 (fun _ => 0))) + 1 /\
  fst (encrypt (PInt 0) (Some []) (fresh 5 (fun _ => 0))) = Ok (PInt 50908).
Proof. split; [cbn; lia|reflexivity]. Qed.

(** What [add_round_key] does with a key that is neither an integer nor a
    binary representation: the conversion failure is caught and printed, and
    the state is XORed with the key as it came. *)
Lemma add_round_key_foreign
  (state : Z) (ty : string) (rxor : option (Z -> Z)) (w : world) :
  sanity_check state = Ok tt ->
  add_round_key state (PForeign ty rxor) w =
  (match rxor with Some f => Ok (f state) | None => Raise TypeError end,
   Build_world (self w) (entropy w)
     (stdout w
      ++ [("Type of the round_key (" ++ ty ++ ") is not allowed")%string])).
Proof.
  intros E. unfold add_round_key, bind, lift, print, ret. rewrite E.
  destruct rxor; reflexivity.
Qed.

(** C4. A round key of an unsupported type makes [add_round_key] print a
    message and go on: mixing state 5 with a numpy integer 1 prints the
    warning and returns 4, and [encrypt] with that object as last key of a
    one-round engine prints the warning and returns a ciphertext.  No error
    reaches the caller. *)
Theorem unsupported_key_only_warns (rnd : nat -> Z) :
  iter_to_int numpy_one = Raise TypeError /\
  add_round_key 5 numpy_one (fresh 1 rnd)
  = (Ok 4,
     Build_world (init 1 false None) rnd
       ["Type of the round_key (<class 'numpy.int64'>) is not allowed"%string]) /\
  encrypt (PInt 0) (Some [PInt 0; numpy_one]) (fresh 1 rnd)
  = (Ok (PInt 0x6667),
     Build_world (init 1 false None) rnd
       ["Type of the round_key (<class 'numpy.int64'>) is not allowed"%string]).
Proof. repeat split. Qed.

(** C5, as the code has it.  Every [encrypt] call without keys ([None] or an
    empty sequence) draws a fresh key set, caches it on the engine in place
    of whatever was cached, and encrypts with it; a [decrypt] call without
    keys uses the cached set, and draws and caches nothing. *)
Theorem keyless_encrypt_draws_decrypt_reuses
  (w : world) (p c : pyval) (z : Z) :
  0 <= _rounds (self w) -> iter_to_int p = Ok z ->
  encrypt p None w = encrypt p (Some (drawn_keys w)) (after_draw w) /\
  encrypt p (Some []) w = encrypt p (Some (drawn_keys w)) (after_draw w) /\
  _round_keys (self (snd (encrypt p None w))) = Some (drawn_keys w) /\
  entropy (snd (encrypt p None w)) = entropy (after_draw w) /\
  (forall keys, _round_keys (self w) = Some keys ->
     decrypt c None w = decrypt c (Some keys) w /\
     self (snd (decrypt c None w)) = self w /\
     entropy (snd (decrypt c None w)) = entropy w).
Proof.
  intros HR Hp.
  assert (Hnot : py_not (Some (drawn_keys w)) = false).
  { pose proof (len_drawn_keys w HR) as Hlen.
    destruct (drawn_keys w); [cbn in Hlen; lia|reflexivity]. }
  destruct (keeps_encrypt_with_keys p (drawn_keys w) Hnot (after_draw w))
    as [Hself Hent].
  split; [now apply (encrypt_keyless w p z)|].
  split; [now apply (encrypt_keyless w p z)|].
  rewrite (encrypt_keyless w p z None HR Hp eq_refl).
  split; [rewrite Hself; reflexivity|]. split; [exact Hent|].
  intros keys Hkeys. split; [|apply keeps_decrypt].
  unfold decrypt, bind, lift, rounds, get_round_keys, ret.
  destruct (iter_to_int c) as [st|e]; [|reflexivity].
  destruct (sanity_check st); [|reflexivity].
  rewrite Hkeys. reflexivity.
Qed.

Lemma keyless_encrypt_draws_decrypt_reuses_witness :
  0 <= _rounds (self (fresh 1 Z.of_nat)) /\
  iter_to_int (PInt 0) = Ok 0 /\
  encrypt (PInt 0) None (fresh 1 Z.of_nat)
  = encrypt (PInt 0) (Some (drawn_keys (fresh 1 Z.of_nat)))
      (after_draw (fresh 1 Z.of_nat)) /\
  _round_keys (self (snd (encrypt (PInt 0) None (fresh 1 Z.of_nat))))
  = Some (drawn_keys (fresh 1 Z.of_nat)).
Proof.
  assert (H0 : 0 <= _rounds (self (fresh 1 Z.of_nat))) by (cbn; lia).
  pose proof (keyless_encrypt_draws_decrypt_reuses (fresh 1 Z.of_nat)
                (PInt 0) (PInt 0) 0 H0 eq_refl) as H.
  exact (conj H0 (conj eq_refl (conj (proj1 H) (proj1 (proj2 (proj2 H)))))).
Defined.

(** C5 as stated fails: of two [encrypt] calls without keys on a one-round
    engine, the first caches the keys [0, 1] and the second replaces them by
    the next draws [2, 3] and encrypts with those, so the two ciphertexts of
    the same plaintext differ. *)
Lemma second_keyless_encrypt_redraws :
  _round_keys (self (snd (encrypt (PInt 0) None (fresh 1 Z.of_nat))))
  = Some [PInt 0; PInt 1] /\
  _round_keys
    (self (snd (encrypt (PInt 0) None
                  (snd (encrypt (PInt 0) None (fresh 1 Z.of_nat))))))
  = Some [PInt 2; PInt 3] /\
  fst (encrypt (PInt 0) None (fresh 1 Z.of_nat)) = Ok (PInt 0x6667) /\
  fst (encrypt (PInt 0) None
         (snd (encrypt (PInt 0) None (fresh 1 Z.of_nat))))
  = Ok (PInt 0x666f).
Proof. repeat split. Qed.

(** C6. When [encrypt] is called without keys on a block that the state
    check rejects, the engine has already drawn and cached a key set by the
    time [ValueError] is raised: the cache goes from [None] to the six drawn
    keys.  ([decrypt] checks the block first and never touches the engine:
    [keeps_decrypt]; so does [encrypt] given keys:
    [keeps_encrypt_with_keys].) *)
Theorem failed_encrypt_leaves_new_keys_cached (rnd : nat -> Z) :
  _round_keys (self (fresh 5 rnd)) = None /\
  fst (encrypt (PInt 65536) None (fresh 5 rnd)) = Raise ValueError /\
  _round_keys (self (snd (encrypt (PInt 65536) None (fresh 5 rnd))))
  = Some [PInt (rnd 0%nat); PInt (rnd 1%nat); PInt (rnd 2%nat);
          PInt (rnd 3%nat); PInt (rnd 4%nat); PInt (rnd 5%nat)].
Proof. repeat split. Qed.

(** C7. Entry [i] of the permutation table is [(i mod 4)*4 + (i div 4)] for
    every [i] in 0..15; on a 16-bit state [perm_layer] writes the bit at
    position [i] to that position; and applying it twice gives the state
    back. *)
Theorem perm_layer_moves_bits_and_is_involution (S i : Z) :
  in_range S -> 0 <= i <= 15 ->
  py_index _pbox i = Ok ((i mod 4) * 4 + i / 4) /\
  exists S',
    perm_layer S = Ok S' /\
    Z.testbit S' ((i mod 4) * 4 + i / 4) = Z.testbit S i /\
    perm_layer S' = Ok S.
Proof.
  intros HS Hi. split.
  - each_of_16 i Hi; reflexivity.
  - destruct (perm_layer_twice S HS) as [S' [E [HS' Eback]]].
    exists S'. split; [exact E|]. split; [|exact Eback].
    destruct (perm_layer_in_range S HS) as [p [Ep [_ Hbits]]].
    assert (p = S') by congruence. subst p.
    destruct (pbox_involution i Hi) as [Hp _]. unfold Spec.pbox in Hp.
    rewrite Hbits by lia.
    exact (perm_bits_pbox (Z.testbit S) i Hi).
Qed.

Lemma perm_layer_moves_bits_and_is_involution_witness :
  in_range 0x1234 /\ 0 <= 2 <= 15 /\
  py_index _pbox 2 = Ok ((2 mod 4) * 4 + 2 / 4) /\
  exists S',
    perm_layer 0x1234 = Ok S' /\
    Z.testbit S' ((2 mod 4) * 4 + 2 / 4) = Z.testbit 0x1234 2 /\
    perm_layer S' = Ok 0x1234.
Proof.
  assert (HS : in_range 0x1234) by (unfold in_range; lia).
  assert (Hi : 0 <= 2 <= 15) by lia.
  exact (conj HS (conj Hi
           (perm_layer_moves_bits_and_is_involution 0x1234 2 HS Hi))).
Defined.

(** C8. The S-box sends 0..15 to 6, 4, 12, 5, 0, 7, 2, 14, 1, 15, 3, 13, 8,
    10, 9, 11; its values are nibbles; and it and its inverse table undo each
    other on every nibble. *)
Theorem sbox_is_bijection_with_inverse (n : Z) :
  0 <= n <= 15 ->
  SBox_call _sbox n
  = nth (Z.to_nat n) [6; 4; 12; 5; 0; 7; 2; 14; 1; 15; 3; 13; 8; 10; 9; 11] 0
  /\ 0 <= SBox_call _sbox n <= 15
  /\ 0 <= SBox_call (SBox_inverse _sbox) n <= 15
  /\ SBox_call (SBox_inverse _sbox) (SBox_call _sbox n) = n
  /\ SBox_call _sbox (SBox_call (SBox_inverse _sbox) n) = n.
Proof.
  intros Hn. pose proof (sbox_table_facts n Hn) as H.
  unfold sbox_table_check in H. split_checks H.
  split; [reflexivity|]. repeat split; lia.
Qed.

Lemma sbox_is_bijection_with_inverse_witness :
  0 <= 9 <= 15 /\
  SBox_call _sbox 9
  = nth (Z.to_nat 9) [6; 4; 12; 5; 0; 7; 2; 14; 1; 15; 3; 13; 8; 10; 9; 11] 0
  /\ 0 <= SBox_call _sbox 9 <= 15
  /\ 0 <= SBox_call (SBox_inverse _sbox) 9 <= 15
  /\ SBox_call (SBox_inverse _sbox) (SBox_call _sbox 9) = 9
  /\ SBox_call _sbox (SBox_call (SBox_inverse _sbox) 9) = 9.
Proof.
  assert (Hn : 0 <= 9 <= 15) by lia.
  exact (conj Hn (sbox_is_bijection_with_inverse 9 Hn)).
Defined.

(** C9. [decrypt] called without keys on an engine with no cached key set
    raises the exception for missing key material, for every ciphertext that
    converts to an integer passing the state check; the engine is left as it
    was. *)
Theorem decrypt_without_any_key_raises (w : world) (c : pyval) (z : Z) :
  iter_to_int c = Ok z -> sanity_check z = Ok tt ->
  _round_keys (self w) = None ->
  decrypt c None w = (Raise NoKeyToDecrypt, w).
Proof.
  intros Hc Hz Hnone.
  unfold decrypt. rewrite Hc, bind_lift_ok, Hz, bind_lift_ok.
  unfold bind, rounds, get_round_keys. rewrite Hnone. reflexivity.
Qed.

Lemma decrypt_without_any_key_raises_witness :
  iter_to_int (PInt 0xbeef) = Ok 0xbeef /\ sanity_check 0xbeef = Ok tt /\
  _round_keys (self (fresh 5 (fun _ => 0))) = None /\
  decrypt (PInt 0xbeef) None (fresh 5 (fun _ => 0))
  = (Raise NoKeyToDecrypt, fresh 5 (fun _ => 0)).
Proof.
  exact (conj eq_refl (conj eq_refl (conj eq_refl
           (decrypt_without_any_key_raises (fresh 5 (fun _ => 0))
              (PInt 0xbeef) 0xbeef eq_refl eq_refl eq_refl)))).
Defined.

(** C10. On a state in [0, 65535], with an integer round key in
    [0, 65535], each of [sbox_layer] (in either direction), [perm_layer] and
    [add_round_key] returns a value in [0, 65535]. *)
Theorem layers_preserve_16_bit_range
  (state key : Z) (inverse : bool) (w : world) :
  in_range state -> in_range key ->
  (exists s', sbox_layer state inverse = Ok s' /\ 0 <= s' <= 65535) /\
  (exists p', perm_layer state = Ok p' /\ 0 <= p' <= 65535) /\
  (exists x', add_round_key state (PInt key) w = (Ok x', w)
              /\ 0 <= x' <= 65535).
Proof.
  intros Hs Hk. repeat split.
  - exact (sbox_layer_in_range state inverse Hs).
  - destruct (perm_layer_in_range state Hs) as [p [Ep [Hp _]]].
    exists p. split; [exact Ep|exact Hp].
  - exists (Z.lxor state key). split.
    + apply add_round_key_int, sanity_check_in_range, Hs.
    + exact (lxor_in_range state key Hs Hk).
Qed.

Lemma layers_preserve_16_bit_range_witness :
  in_range 0xffff /\ in_range 0x0001 /\
  (exists s', sbox_layer 0xffff true = Ok s' /\ 0 <= s' <= 65535) /\
  (exists p', perm_layer 0xffff = Ok p' /\ 0 <= p' <= 65535) /\
  (exists x', add_round_key 0xffff (PInt 0x0001) (fresh 5 (fun _ => 0))
              = (Ok x', fresh 5 (fun _ => 0))
              /\ 0 <= x' <= 65535).
Proof.
  assert (Hs : in_range 0xffff) by (unfold in_range; lia).
  assert (Hk : in_range 0x0001) by (unfold in_range; lia).
  exact (conj Hs (conj Hk
           (layers_preserve_16_bit_range 0xffff 0x0001 true
              (fresh 5 (fun _ => 0)) Hs Hk))).
Defined.

(** * Further properties *)

(** ** [encrypt] and [decrypt] in terms of their key lookups *)

Lemma encrypt_unfold (p : pyval) (keys : list pyval) (w : world) :
  py_not (Some keys) = false ->
  encrypt p (Some keys) w =
  bind (lift (iter_to_int p))
    (encrypt_core (py_slice_upto keys (_rounds (self w) - 1))
       (py_index keys (_rounds (self w) - 1))
       (py_index keys (_rounds (self w)))) w.
Proof.
  intros Hnot. unfold encrypt. rewrite Hnot.
  unfold bind at 1 5. unfold lift at 1 5.
  destruct (iter_to_int p) as [state|e]; reflexivity.
Qed.

Lemma decrypt_unfold (c : pyval) (keys : list pyval) (w : world) :
  decrypt c (Some keys) w =
  bind (lift (iter_to_int c)) (fun state =>
    lift (sanity_check state) ;;;
    decrypt_core (py_slice_downfrom keys (_rounds (self w) - 2))
      (py_index keys (_rounds (self w)))
      (py_index keys (_rounds (self w) - 1)) state) w.
Proof.
  unfold decrypt, bind, lift.
  destruct (iter_to_int c) as [state|e]; [|reflexivity].
  destruct (sanity_check state); reflexivity.
Qed.

(** ** Integer and bit-sequence forms *)

Lemma iter_to_int_normalize (v : pyval) :
  iter_to_int (normalize v) = iter_to_int v.
Proof. destruct v; reflexivity. Qed.

Lemma add_round_key_normalize (state : Z) (key : pyval) (w : world) :
  add_round_key state (normalize key) w = add_round_key state key w.
Proof.
  destruct key as [k|bits|ty f]; reflexivity.
Qed.

Lemma round_normalize (state : Z) (key : pyval) (inverse : bool) (w : world) :
  round state (normalize key) inverse w = round state key inverse w.
Proof.
  unfold round. destruct inverse.
  - unfold bind at 1 4. destruct (lift (perm_layer state) w) as [[s1|e] w1];
      [|reflexivity].
    unfold bind at 1 3. destruct (lift (sbox_layer s1 true) w1) as [[s2|e] w2];
      [|reflexivity].
    unfold bind. now rewrite add_round_key_normalize.
  - unfold bind at 1 4. now rewrite add_round_key_normalize.
Qed.

Lemma for_each_round_normalize (inverse : bool) (l : list pyval) :
  forall state w,
    for_each (fun state key => round state key inverse) (map normalize l)
      state w =
    for_each (fun state key => round state key inverse) l state w.
Proof.
  induction l as [|k l IH]; intros state w; cbn [map for_each]; [reflexivity|].
  unfold bind. rewrite round_normalize.
  destruct (round state k inverse w) as [[s'|e] w']; [apply IH|reflexivity].
Qed.

Lemma last_round_normalize (ka kb : result pyval) (state : Z) (w : world) :
  last_round (rmap normalize ka) (rmap normalize kb) state w =
  last_round ka kb state w.
Proof.
  unfold last_round. destruct ka as [ka|e]; [|reflexivity].
  cbn [rmap]. rewrite !bind_lift_ok.
  unfold bind at 1 5. rewrite add_round_key_normalize.
  destruct (add_round_key state ka w) as [[s1|e] w1]; [|reflexivity].
  unfold bind at 1 4. destruct (lift (sbox_layer s1 false) w1) as [[s2|e] w2];
    [|reflexivity].
  destruct kb as [kb|e]; [|reflexivity].
  cbn [rmap]. rewrite !bind_lift_ok.
  unfold bind. now rewrite add_round_key_normalize.
Qed.

Lemma encrypt_core_normalize
  (front : list pyval) (ka kb : result pyval) (state : Z) (w : world) :
  encrypt_core (map normalize front) (rmap normalize ka) (rmap normalize kb)
    state w =
  encrypt_core front ka kb state w.
Proof.
  unfold encrypt_core, bind. rewrite for_each_round_normalize.
  destruct (for_each _ front state w) as [[s'|e] w']; [|reflexivity].
  apply last_round_normalize.
Qed.

Lemma decrypt_core_normalize
  (front : list pyval) (kb ka : result pyval) (state : Z) (w : world) :
  decrypt_core (map normalize front) (rmap normalize kb) (rmap normalize ka)
    state w =
  decrypt_core front kb ka state w.
Proof.
  unfold decrypt_core. destruct kb as [kb|e]; [|reflexivity].
  cbn [rmap]. rewrite !bind_lift_ok.
  unfold bind at 1 6. rewrite add_round_key_normalize.
  destruct (add_round_key state kb w) as [[s1|e] w1]; [|reflexivity].
  unfold bind at 1 5. destruct (lift (sbox_layer s1 true) w1) as [[s2|e] w2];
    [|reflexivity].
  destruct ka as [ka|e]; [|reflexivity].
  cbn [rmap]. rewrite !bind_lift_ok.
  unfold bind at 1 3. rewrite add_round_key_normalize.
  destruct (add_round_key s2 ka w2) as [[s3|e] w3]; [|reflexivity].
  unfold bind. rewrite for_each_round_normalize. reflexivity.
Qed.

Lemma py_index_map {A B} (f : A -> B) (l : list A) (i : Z) :
  py_index (map f l) i = rmap f (py_index l i).
Proof.
  unfold py_index. rewrite len_map.
  destruct ((0 <=? _) && (_ <? _)); [|reflexivity].
  rewrite nth_error_map. now destruct (nth_error l _).
Qed.

Lemma py_slice_upto_map {A B} (f : A -> B) (l : list A) (n : Z) :
  py_slice_upto (map f l) n = map f (py_slice_upto l n).
Proof. unfold py_slice_upto. now rewrite len_map, firstn_map. Qed.

Lemma py_slice_downfrom_map {A B} (f : A -> B) (l : list A) (n : Z) :
  py_slice_downfrom (map f l) n = map f (py_slice_downfrom l n).
Proof. unfold py_slice_downfrom. now rewrite len_map, firstn_map, map_rev. Qed.

Lemma py_not_map (f : pyval -> pyval) (keys : list pyval) :
  py_not (Some (map f keys)) = py_not (Some keys).
Proof. now destruct keys. Qed.

Lemma encrypt_normalize (p : pyval) (keys : list pyval) (w : world) :
  encrypt (normalize p) (Some (map normalize keys)) w
  = encrypt p (Some keys) w.
Proof.
  destruct (py_not (Some keys)) eqn:Hnot.
  - destruct keys; [|discriminate]. cbn [map].
    unfold encrypt. now rewrite iter_to_int_normalize.
  - rewrite !encrypt_unfold by now rewrite ?py_not_map.
    rewrite iter_to_int_normalize, py_slice_upto_map, !py_index_map.
    unfold bind, lift. destruct (iter_to_int p); [|reflexivity].
    apply encrypt_core_normalize.
Qed.

Lemma decrypt_normalize (c : pyval) (keys : list pyval) (w : world) :
  decrypt (normalize c) (Some (map normalize keys)) w
  = decrypt c (Some keys) w.
Proof.
  rewrite !decrypt_unfold.
  rewrite iter_to_int_normalize, py_slice_downfrom_map, !py_index_map.
  unfold bind at 1 3, lift at 1 3. destruct (iter_to_int c) as [state|e];
    [|reflexivity].
  unfold bind, lift. destruct (sanity_check state); [|reflexivity].
  apply decrypt_core_normalize.
Qed.


(** ** Round trips in both directions, in every representation *)

Lemma normalize_in_range (keys : list pyval) :
  Forall value_in_range keys ->
  exists zs, map normalize keys = map PInt zs /\ Forall in_range zs
             /\ len zs = len keys.
Proof.
  induction 1 as [|k keys [z [Ez Hz]] _ [zs [E [Hzs Hlen]]]].
  - exists []. split; [reflexivity|]. split; [constructor|reflexivity].
  - exists (z :: zs). cbn [map]. unfold normalize at 1. rewrite Ez, E.
    split; [reflexivity|]. split; [now constructor|].
    unfold len in *. cbn [List.length]. lia.
Qed.

Lemma normalize_value (v : pyval) (z : Z) :
  iter_to_int v = Ok z -> normalize v = PInt z.
Proof. intros E. unfold normalize. now rewrite E. Qed.

Lemma encrypt_int_form (p : pyval) (P : Z) (keys : list pyval) (w : world) :
  iter_to_int p = Ok P ->
  encrypt p (Some keys) w = encrypt (PInt P) (Some keys) w.
Proof.
  intros E. unfold encrypt. now rewrite E.
Qed.

Lemma decrypt_int_form (c : pyval) (C : Z) (keys : list pyval) (w : world) :
  iter_to_int c = Ok C ->
  decrypt c (Some keys) w = decrypt (PInt C) (Some keys) w.
Proof.
  intros E. unfold decrypt. now rewrite E.
Qed.

Lemma sbox_layer_roundtrip_inverse (s : Z) :
  in_range s ->
  exists c, sbox_layer s true = Ok c /\ in_range c /\ Spec.substitute c = s.
Proof.
  intros Hs.
  destruct (sbox_layer_in_range s true Hs) as [c [Ec Hc]].
  exists c. split; [exact Ec|]. split; [exact Hc|].
  assert (E : sbox_layer c false = Ok s).
  { rewrite sbox_layer_unfold in Ec by now apply sanity_check_in_range.
    cbv zeta in Ec. injection Ec as Ec.
    rewrite sbox_layer_unfold by now apply sanity_check_in_range.
    cbv zeta.
    pose proof (nibble_bounds s 0) as B0. pose proof (nibble_bounds s 4) as B4.
    pose proof (nibble_bounds s 8) as B8.
    pose proof (nibble_bounds s 12) as B12.
    destruct (nibble_at_pack4 _ _ _ _
                (SBox_call_bounds true _ B0) (SBox_call_bounds true _ B4)
                (SBox_call_bounds true _ B8) (SBox_call_bounds true _ B12))
      as [N0 [N4 [N8 N12]]].
    cbv iota in N0, N4, N8, N12.
    rewrite <- Ec, N0, N4, N8, N12.
    assert (Hinv : forall n, 0 <= n <= 15 ->
              SBox_call _sbox (SBox_call (SBox_inverse _sbox) n) = n).
    { intros n Hn. pose proof (sbox_table_facts n Hn) as H.
      unfold sbox_table_check in H. split_checks H. lia. }
    rewrite !Hinv by assumption.
    f_equal. now apply pack4_nibbles. }
  rewrite sbox_layer_substitute in E by exact Hc. congruence.
Qed.

Lemma round_inverse_exists (s k : Z) (w : world) :
  in_range s -> in_range k ->
  exists P, in_range P /\ round s (PInt k) true w = (Ok P, w)
            /\ Spec.full_round P k = s.
Proof.
  intros Hs Hk.
  destruct (perm_layer_twice s Hs) as [p [Ep [Hp Eback]]].
  rewrite perm_layer_permute in Eback by exact Hp. injection Eback as Eperm.
  destruct (sbox_layer_roundtrip_inverse p Hp) as [q [Eq [Hq Esub]]].
  exists (Z.lxor q k). split; [now apply lxor_in_range|]. split.
  - unfold round. unfold bind at 1 2, lift. rewrite Ep, Eq.
    rewrite (bind_ok _ _ w w (Z.lxor q k))
      by (apply add_round_key_int, sanity_check_in_range, Hq).
    reflexivity.
  - unfold Spec.full_round, Spec.mix. now rewrite lxor_twice, Esub.
Qed.

Lemma rounds_inverse_exist (ks : list Z) (w : world) :
  Forall in_range ks ->
  forall s, in_range s ->
  exists P, in_range P
            /\ for_each (fun state key => round state key true)
                 (map PInt (rev ks)) s w = (Ok P, w)
            /\ fold_left Spec.full_round ks P = s.
Proof.
  induction 1 as [|k ks Hk _ IH]; intros s Hs; cbn [rev fold_left].
  - exists s. split; [exact Hs|split; reflexivity].
  - destruct (IH s Hs) as [P1 [HP1 [E1 F1]]].
    destruct (round_inverse_exists P1 k w HP1 Hk) as [P [HP [E2 F2]]].
    exists P. split; [exact HP|]. split.
    + rewrite map_app, for_each_app.
      rewrite (bind_ok _ _ w w P1) by exact E1.
      cbn [map for_each]. rewrite (bind_ok _ _ w w P) by exact E2.
      reflexivity.
    + now rewrite F2.
Qed.

Lemma decrypt_rounds_exist (w : world) (R : Z) (ks : list Z) (C : Z) :
  _rounds (self w) = R -> 2 <= R -> len ks = R + 1 ->
  Forall in_range ks -> in_range C ->
  exists P, in_range P
            /\ decrypt (PInt C) (Some (map PInt ks)) w = output P w
            /\ Spec.encrypt R ks P = C.
Proof.
  intros HR H2 Hlen Hks HC.
  set (front := firstn (Z.to_nat (R - 1)) ks).
  assert (Hfront : Forall in_range front) by now apply Forall_firstn.
  pose proof (key_in_range ks (R - 1) Hks) as Hka.
  pose proof (key_in_range ks R Hks) as Hkb.
  pose proof (lxor_in_range _ _ HC Hkb) as Hx1.
  destruct (sbox_layer_roundtrip_inverse _ Hx1) as [x2 [E2 [Hx2 Esub]]].
  pose proof (lxor_in_range _ _ Hx2 Hka) as Hx3.
  destruct (rounds_inverse_exist front w Hfront _ Hx3) as [P [HP [EP FP]]].
  exists P. split; [exact HP|]. split.
  - unfold decrypt. cbn [iter_to_int]. rewrite bind_lift_ok.
    rewrite (sanity_check_in_range _ HC), bind_lift_ok.
    rewrite (bind_ok _ _ w w R) by (unfold rounds; now rewrite HR).
    rewrite (bind_ok _ _ w w (map PInt ks)) by reflexivity.
    rewrite !py_index_map_int by lia.
    rewrite bind_lift_ok.
    rewrite (bind_ok _ _ w w (Z.lxor C (Spec.key ks R)))
      by (apply add_round_key_int, sanity_check_in_range, HC).
    rewrite E2, !bind_lift_ok.
    rewrite (bind_ok _ _ w w (Z.lxor x2 (Spec.key ks (R - 1))))
      by (apply add_round_key_int, sanity_check_in_range, Hx2).
    rewrite py_slice_downfrom_firstn by lia.
    replace (R - 2 + 1) with (R - 1) by lia.
    rewrite firstn_map, <- map_rev.
    rewrite (bind_ok _ _ w w P) by exact EP.
    reflexivity.
  - unfold Spec.encrypt. cbv zeta. rewrite spec_full_rounds by lia.
    fold front. rewrite FP.
    unfold Spec.final_round, Spec.mix. now rewrite lxor_twice, Esub, lxor_twice.
Qed.

(** X1. With two rounds or more, [decrypt] undoes [encrypt]: for a block and
    [rounds+1] keys that convert to 16-bit integers, given as integers or as
    bit sequences, an engine encrypts the block without error and any engine
    with the same round count decrypts the result, under the same keys, to
    the block's value, in whatever output format either engine has. *)
Theorem decrypt_undoes_encrypt
  (we wd : world) (R : Z) (keys : list pyval) (p : pyval) (P : Z) :
  _rounds (self we) = R -> _rounds (self wd) = R -> 2 <= R ->
  len keys = R + 1 -> Forall value_in_range keys ->
  iter_to_int p = Ok P -> in_range P ->
  exists C Pv,
    encrypt p (Some keys) we = (Ok C, we) /\
    decrypt C (Some keys) wd = (Ok Pv, wd) /\
    iter_to_int Pv = Ok P.
Proof.
  intros HRe HRd H2 Hlen Hkeys Hp HP.
  destruct (normalize_in_range keys Hkeys) as [zs [Ezs [Hzs Hlenz]]].
  destruct (encrypt_rounds_gen we R zs P HRe ltac:(lia) ltac:(lia) Hzs HP)
    as [Eenc Hc].
  destruct (iter_to_int_output (Spec.encrypt R zs P) we) as [C [EC HC]];
    [unfold in_range in Hc; lia|].
  destruct (iter_to_int_output P wd) as [Pv [EPv HPv]];
    [unfold in_range in HP; lia|].
  exists C, Pv. split; [|split; [|exact HPv]].
  - rewrite <- encrypt_normalize, (normalize_value p P Hp), Ezs, Eenc.
    exact EC.
  - rewrite <- decrypt_normalize, Ezs.
    rewrite (decrypt_int_form _ _ _ _ (eq_trans (iter_to_int_normalize C) HC)).
    rewrite (decrypt_rounds_gen wd R zs P (PInt (Spec.encrypt R zs P))
               HRd H2 ltac:(lia) Hzs HP eq_refl).
    exact EPv.
Qed.

(** X10. With two rounds or more, [encrypt] undoes [decrypt] as well: a
    16-bit block decrypts without error, and encrypting the result under the
    same keys gives the block's value back.  Together with X1, the cipher is
    a bijection of the 16-bit blocks for every such key sequence. *)
Theorem encrypt_undoes_decrypt
  (we wd : world) (R : Z) (keys : list pyval) (c : pyval) (C : Z) :
  _rounds (self we) = R -> _rounds (self wd) = R -> 2 <= R ->
  len keys = R + 1 -> Forall value_in_range keys ->
  iter_to_int c = Ok C -> in_range C ->
  exists Pv Cv,
    decrypt c (Some keys) wd = (Ok Pv, wd) /\
    encrypt Pv (Some keys) we = (Ok Cv, we) /\
    iter_to_int Cv = Ok C.
Proof.
  intros HRe HRd H2 Hlen Hkeys Hc HC.
  destruct (normalize_in_range keys Hkeys) as [zs [Ezs [Hzs Hlenz]]].
  destruct (decrypt_rounds_exist wd R zs C HRd H2 ltac:(lia) Hzs HC)
    as [P [HP [Edec Eenc]]].
  destruct (iter_to_int_output P wd) as [Pv [EPv HPv]];
    [unfold in_range in HP; lia|].
  destruct (iter_to_int_output C we) as [Cv [ECv HCv]];
    [unfold in_range in HC; lia|].
  exists Pv, Cv. split; [|split; [|exact HCv]].
  - rewrite <- decrypt_normalize, (normalize_value c C Hc), Ezs, Edec.
    exact EPv.
  - rewrite <- encrypt_normalize, Ezs.
    rewrite (encrypt_int_form _ _ _ _ (eq_trans (iter_to_int_normalize Pv) HPv)).
    destruct (encrypt_rounds_gen we R zs P HRe ltac:(lia) ltac:(lia) Hzs HP)
      as [E _].
    rewrite E, Eenc. exact ECv.
Qed.

Lemma get_vec_keys_5_in_range : Forall value_in_range (get_vec_keys 5).
Proof.
  assert (H : value_in_range (int_to_vec 1)).
  { exists 1. split; [reflexivity|unfold in_range; lia]. }
  change (get_vec_keys 5) with (repeat (int_to_vec 1) 6). cbn [repeat].
  repeat (apply Forall_cons; [exact H|]). apply Forall_nil.
Qed.

Lemma decrypt_undoes_encrypt_witness :
  _rounds (self (fresh 5 (fun _ => 0))) = 5 /\
  _rounds (self (Build_world (init 5 true None) (fun _ => 0) [])) = 5 /\
  2 <= 5 /\ len (get_vec_keys 5) = 5 + 1 /\
  Forall value_in_range (get_vec_keys 5) /\
  iter_to_int (int_to_vec 0xffff) = Ok 0xffff /\ in_range 0xffff /\
  exists C Pv,
    encrypt (int_to_vec 0xffff) (Some (get_vec_keys 5)) (fresh 5 (fun _ => 0))
    = (Ok C, fresh 5 (fun _ => 0)) /\
    decrypt C (Some (get_vec_keys 5))
      (Build_world (init 5 true None) (fun _ => 0) [])
    = (Ok Pv, Build_world (init 5 true None) (fun _ => 0) []) /\
    iter_to_int Pv = Ok 0xffff.
Proof.
  assert (H2 : 2 <= 5) by lia.
  assert (HP : in_range 0xffff) by (unfold in_range; lia).
  exact (conj eq_refl (conj eq_refl (conj H2 (conj eq_refl
           (conj get_vec_keys_5_in_range (conj eq_refl (conj HP
              (decrypt_undoes_encrypt (fresh 5 (fun _ => 0))
                 (Build_world (init 5 true None) (fun _ => 0) [])
                 5 (get_vec_keys 5) (int_to_vec 0xffff) 0xffff
                 eq_refl eq_refl H2 eq_refl get_vec_keys_5_in_range
                 eq_refl HP)))))))).
Defined.

Lemma encrypt_undoes_decrypt_witness :
  _rounds (self (fresh 5 (fun _ => 0))) = 5 /\
  _rounds (self (Build_world (init 5 true None) (fun _ => 0) [])) = 5 /\
  2 <= 5 /\ len (get_vec_keys 5) = 5 + 1 /\
  Forall value_in_range (get_vec_keys 5) /\
  iter_to_int (PInt 0x6c19) = Ok 0x6c19 /\ in_range 0x6c19 /\
  exists Pv Cv,
    decrypt (PInt 0x6c19) (Some (get_vec_keys 5))
      (Build_world (init 5 true None) (fun _ => 0) [])
    = (Ok Pv, Build_world (init 5 true None) (fun _ => 0) []) /\
    encrypt Pv (Some (get_vec_keys 5)) (fresh 5 (fun _ => 0))
    = (Ok Cv, fresh 5 (fun _ => 0)) /\
    iter_to_int Cv = Ok 0x6c19.
Proof.
  assert (H2 : 2 <= 5) by lia.
  assert (HC : in_range 0x6c19) by (unfold in_range; lia).
  exact (conj eq_refl (conj eq_refl (conj H2 (conj eq_refl
           (conj get_vec_keys_5_in_range (conj eq_refl (conj HC
              (encrypt_undoes_decrypt (fresh 5 (fun _ => 0))
                 (Build_world (init 5 true None) (fun _ => 0) [])
                 5 (get_vec_keys 5) (PInt 0x6c19) 0x6c19
                 eq_refl eq_refl H2 eq_refl get_vec_keys_5_in_range
                 eq_refl HC)))))))).
Defined.

(** X2. The check of the test script succeeds in general: for two engines
    with the same round count of two or more, in any output formats, and a
    block and [rounds+1] keys that convert to 16-bit integers, in either
    representation, [correctness] returns [True]. *)
Theorem correctness_holds
  (enc dec : world) (R : Z) (K : list pyval) (P : pyval) :
  _rounds (self enc) = R -> _rounds (self dec) = R -> 2 <= R ->
  len K = R + 1 -> Forall value_in_range K -> value_in_range P ->
  correctness enc dec P (Some K) = Ok true.
Proof.
  intros HRe HRd H2 Hlen HK [z [Hz Hzr]].
  destruct (normalize_in_range K HK) as [zs [Ezs [Hzs Hlenz]]].
  destruct (encrypt_rounds_gen enc R zs z HRe ltac:(lia) ltac:(lia) Hzs Hzr)
    as [Eenc Hc].
  destruct (iter_to_int_output (Spec.encrypt R zs z) enc) as [C [EC HC]];
    [unfold in_range in Hc; lia|].
  destruct (iter_to_int_output z dec) as [Pv [EPv HPv]];
    [unfold in_range in Hzr; lia|].
  unfold correctness.
  rewrite <- encrypt_normalize, (normalize_value P z Hz), Ezs, Eenc, EC.
  cbn [fst rbind].
  rewrite <- decrypt_normalize, Ezs.
  rewrite (decrypt_int_form _ _ _ _ (eq_trans (iter_to_int_normalize C) HC)).
  rewrite (decrypt_rounds_gen dec R zs z (PInt (Spec.encrypt R zs z))
             HRd H2 ltac:(lia) Hzs Hzr eq_refl), EPv.
  cbn [fst rbind]. rewrite HPv, Hz. cbn [rbind]. now rewrite Z.eqb_refl.
Qed.

Lemma correctness_holds_witness :
  _rounds (self (Build_world (init 5 true None) (fun _ => 0) [])) = 5 /\
  _rounds (self (fresh 5 (fun _ => 0))) = 5 /\
  2 <= 5 /\ len (get_vec_keys 5) = 5 + 1 /\
  Forall value_in_range (get_vec_keys 5) /\
  value_in_range (int_to_vec 0xffff) /\
  correctness (Build_world (init 5 true None) (fun _ => 0) [])
    (fresh 5 (fun _ => 0)) (int_to_vec 0xffff) (Some (get_vec_keys 5))
  = Ok true.
Proof.
  assert (H2 : 2 <= 5) by lia.
  assert (HP : value_in_range (int_to_vec 0xffff)).
  { exists 0xffff. split; [reflexivity|unfold in_range; lia]. }
  exact (conj eq_refl (conj eq_refl (conj H2 (conj eq_refl
           (conj get_vec_keys_5_in_range (conj HP
              (correctness_holds
                 (Build_world (init 5 true None) (fun _ => 0) [])
                 (fresh 5 (fun _ => 0)) 5 (get_vec_keys 5)
                 (int_to_vec 0xffff)
                 eq_refl eq_refl H2 eq_refl get_vec_keys_5_in_range
                 HP))))))).
Defined.

(** X12. Calling the engine itself: with two rounds or more, [alg = 0]
    encrypts, any other [alg] decrypts, and the second call undoes the
    first. *)
Theorem call_roundtrip
  (w : world) (R : Z) (keys : list pyval) (p : pyval) (P alg : Z) :
  _rounds (self w) = R -> 2 <= R -> len keys = R + 1 ->
  Forall value_in_range keys -> iter_to_int p = Ok P -> in_range P ->
  alg <> 0 ->
  exists C Pv,
    call p (Some keys) 0 w = (Ok C, w) /\
    call C (Some keys) alg w = (Ok Pv, w) /\
    iter_to_int Pv = Ok P.
Proof.
  intros HR H2 Hlen Hkeys Hp HP Halg.
  destruct (normalize_in_range keys Hkeys) as [zs [Ezs [Hzs Hlenz]]].
  destruct (encrypt_rounds_gen w R zs P HR ltac:(lia) ltac:(lia) Hzs HP)
    as [Eenc Hc].
  destruct (iter_to_int_output (Spec.encrypt R zs P) w) as [C [EC HC]];
    [unfold in_range in Hc; lia|].
  destruct (iter_to_int_output P w) as [Pv [EPv HPv]];
    [unfold in_range in HP; lia|].
  exists C, Pv. unfold call.
  destruct (Z.eqb_spec alg 0) as [|_]; [contradiction|].
  cbn [negb Z.eqb]. split; [|split; [|exact HPv]].
  - rewrite <- encrypt_normalize, (normalize_value p P Hp), Ezs, Eenc.
    exact EC.
  - rewrite <- decrypt_normalize, Ezs.
    rewrite (decrypt_int_form _ _ _ _ (eq_trans (iter_to_int_normalize C) HC)).
    rewrite (decrypt_rounds_gen w R zs P (PInt (Spec.encrypt R zs P))
               HR H2 ltac:(lia) Hzs HP eq_refl).
    exact EPv.
Qed.

Lemma call_roundtrip_witness :
  _rounds (self (fresh 5 (fun _ => 0))) = 5 /\ 2 <= 5 /\
  len (get_vec_keys 5) = 5 + 1 /\ Forall value_in_range (get_vec_keys 5) /\
  iter_to_int (PInt 0xffff) = Ok 0xffff /\ in_range 0xffff /\ 1 <> 0 /\
  exists C Pv,
    call (PInt 0xffff) (Some (get_vec_keys 5)) 0 (fresh 5 (fun _ => 0))
    = (Ok C, fresh 5 (fun _ => 0)) /\
    call C (Some (get_vec_keys 5)) 1 (fresh 5 (fun _ => 0))
    = (Ok Pv, fresh 5 (fun _ => 0)) /\
    iter_to_int Pv = Ok 0xffff.
Proof.
  assert (H2 : 2 <= 5) by lia.
  assert (HP : in_range 0xffff) by (unfold in_range; lia).
  assert (Halg : 1 <> 0) by lia.
  exact (conj eq_refl (conj H2 (conj eq_refl (conj get_vec_keys_5_in_range
           (conj eq_refl (conj HP (conj Halg
              (call_roundtrip (fresh 5 (fun _ => 0)) 5 (get_vec_keys 5)
                 (PInt 0xffff) 0xffff 1
                 eq_refl H2 eq_refl get_vec_keys_5_in_range eq_refl HP
                 Halg)))))))).
Defined.

(** ** The two conversions *)

Lemma pos_digits_bounds (p : positive) :
  2 ^ (len (pos_digits p) - 1) <= Zpos p < 2 ^ len (pos_digits p).
Proof.
  unfold len.
  induction p as [p IH|p IH|]; cbn [pos_digits List.length].
  - rewrite Nat2Z.inj_succ.
    replace (Z.succ (Z.of_nat (List.length (pos_digits p))) - 1)
      with (Z.succ (Z.of_nat (List.length (pos_digits p)) - 1)) by lia.
    assert (0 < Z.of_nat (List.length (pos_digits p)))
      by (destruct p; cbn; lia).
    rewrite !Z.pow_succ_r by lia. lia.
  - rewrite Nat2Z.inj_succ.
    replace (Z.succ (Z.of_nat (List.length (pos_digits p))) - 1)
      with (Z.succ (Z.of_nat (List.length (pos_digits p)) - 1)) by lia.
    assert (0 < Z.of_nat (List.length (pos_digits p)))
      by (destruct p; cbn; lia).
    rewrite !Z.pow_succ_r by lia. lia.
  - cbn. lia.
Qed.

(** X4. [int_to_vec] and [iter_to_int] agree on the bit order: converting a
    non-negative state to a vector and back gives the state.  The vector is
    not padded: it has as many bits as the state has binary digits (none for
    0), so at most 16 for a 16-bit state. *)
Theorem int_to_vec_roundtrip (state : Z) :
  0 <= state ->
  exists bits,
    int_to_vec state = PBits bits /\
    iter_to_int (int_to_vec state) = Ok state /\
    (state = 0 -> bits = []) /\
    (0 < state -> 2 ^ (len bits - 1) <= state < 2 ^ len bits) /\
    (in_range state -> len bits <= 16).
Proof.
  intros Hs. exists (digits2 state). split; [reflexivity|].
  split; [cbn [int_to_vec iter_to_int]; now rewrite bits_to_Z_digits2|].
  split; [now intros ->|].
  assert (Hb : 0 < state -> 2 ^ (len (digits2 state) - 1) <= state
                             < 2 ^ len (digits2 state)).
  { intros Hpos. destruct state as [|p|p]; try lia. apply pos_digits_bounds. }
  split; [exact Hb|].
  intros Hr. destruct (Z.eq_dec state 0) as [->|Hnz]; [cbn; lia|].
  destruct (Hb ltac:(lia)) as [Hlo _].
  destruct (Z_le_gt_dec (len (digits2 state)) 16) as [Hle|Hgt]; [exact Hle|].
  exfalso.
  assert (2 ^ 16 <= 2 ^ (len (digits2 state) - 1))
    by (apply Z.pow_le_mono_r; lia).
  apply in_range_lt in Hr. lia.
Qed.

Lemma int_to_vec_roundtrip_witness :
  0 <= 5 /\
  exists bits,
    int_to_vec 5 = PBits bits /\
    iter_to_int (int_to_vec 5) = Ok 5 /\
    (5 = 0 -> bits = []) /\
    (0 < 5 -> 2 ^ (len bits - 1) <= 5 < 2 ^ len bits) /\
    (in_range 5 -> len bits <= 16).
Proof.
  assert (H : 0 <= 5) by lia.
  exact (conj H (int_to_vec_roundtrip 5 H)).
Defined.

(** ** What touches the engine *)

(** X5. [decrypt] never writes to the engine and never draws random numbers,
    whatever its arguments and whether it returns or raises; the same holds
    of [encrypt] when it is given a non-empty key sequence. *)
Theorem only_keyless_encrypt_touches_engine
  (w : world) (block : pyval) (round_keys : option (list pyval))
  (keys : list pyval) :
  (self (snd (decrypt block round_keys w)) = self w /\
   entropy (snd (decrypt block round_keys w)) = entropy w) /\
  (keys <> [] ->
   self (snd (encrypt block (Some keys) w)) = self w /\
   entropy (snd (encrypt block (Some keys) w)) = entropy w).
Proof.
  split; [apply keeps_decrypt|].
  intros Hne. apply keeps_encrypt_with_keys.
  destruct keys; [contradiction|reflexivity].
Qed.

Lemma only_keyless_encrypt_touches_engine_witness :
  [numpy_one; PInt 70000] <> [] /\
  self (snd (encrypt (PInt 1) (Some [numpy_one; PInt 70000])
               (fresh 1 (fun _ => 0))))
  = self (fresh 1 (fun _ => 0)) /\
  entropy (snd (encrypt (PInt 1) (Some [numpy_one; PInt 70000])
                  (fresh 1 (fun _ => 0))))
  = entropy (fresh 1 (fun _ => 0)).
Proof.
  assert (Hne : [numpy_one; PInt 70000] <> []) by discriminate.
  exact (conj Hne
           (proj2 (only_keyless_encrypt_touches_engine (fresh 1 (fun _ => 0))
                     (PInt 1) None [numpy_one; PInt 70000]) Hne)).
Defined.

(** ** The setter and the cache *)

Lemma decrypt_uses_cache (c : pyval) (keys : list pyval) (w : world) :
  _round_keys (self w) = Some keys ->
  decrypt c None w = decrypt c (Some keys) w.
Proof.
  intros Hkeys. unfold decrypt, bind, lift, rounds, get_round_keys, ret.
  destruct (iter_to_int c) as [st|e]; [|reflexivity].
  destruct (sanity_check st); [|reflexivity].
  rewrite Hkeys. reflexivity.
Qed.

Lemma decrypt_too_few_keys (c : pyval) (C : Z) (keys : list pyval) (w : world) :
  iter_to_int c = Ok C -> sanity_check C = Ok tt ->
  0 <= _rounds (self w) -> len keys <= _rounds (self w) ->
  decrypt c (Some keys) w = (Raise IndexError, w).
Proof.
  intros Hc HC HR Hlen. rewrite decrypt_unfold, Hc, bind_lift_ok, HC.
  rewrite bind_lift_ok. unfold decrypt_core.
  rewrite py_index_beyond by lia. apply bind_lift_raise.
Qed.

(** X6. The setter of [round_keys] turns away a sequence of fewer than
    [rounds] keys with the not-enough-keys exception and leaves the engine
    as it was; it accepts a sequence of exactly [rounds] keys, one fewer than
    a transform needs, and a [decrypt] without keys then fails with
    [IndexError]. *)
Theorem setter_is_one_key_lenient
  (w : world) (R : Z) (keys : list pyval) (c : pyval) (C : Z) :
  _rounds (self w) = R -> 0 <= R ->
  iter_to_int c = Ok C -> sanity_check C = Ok tt ->
  (len keys < R ->
   set_round_keys keys w = (Raise (NotEnoughKeys (List.length keys) R), w)) /\
  (len keys = R ->
   exists w',
     set_round_keys keys w = (Ok tt, w') /\
     _round_keys (self w') = Some keys /\
     decrypt c None w' = (Raise IndexError, w')).
Proof.
  intros HR H0 Hc HC. unfold set_round_keys. rewrite HR. split; intros Hlen.
  - destruct (Z.ltb_spec (len keys) R); [reflexivity|lia].
  - destruct (Z.ltb_spec (len keys) R); [lia|].
    eexists. split; [reflexivity|]. split; [reflexivity|].
    rewrite (decrypt_uses_cache c keys) by reflexivity.
    apply (decrypt_too_few_keys c C); cbn [self _rounds]; try assumption; lia.
Qed.

Lemma setter_is_one_key_lenient_witness :
  _rounds (self (fresh 5 (fun _ => 0))) = 5 /\ 0 <= 5 /\
  iter_to_int (PInt 7) = Ok 7 /\ sanity_check 7 = Ok tt /\
  (len (map PInt [1; 2; 3; 4; 5]) = 5 /\
   exists w',
     set_round_keys (map PInt [1; 2; 3; 4; 5]) (fresh 5 (fun _ => 0))
     = (Ok tt, w') /\
     _round_keys (self w') = Some (map PInt [1; 2; 3; 4; 5]) /\
     decrypt (PInt 7) None w' = (Raise IndexError, w')) /\
  (len [PInt 1; PInt 2] < 5 /\
   set_round_keys [PInt 1; PInt 2] (fresh 5 (fun _ => 0))
   = (Raise (NotEnoughKeys 2 5), fresh 5 (fun _ => 0))).
Proof.
  assert (H0 : 0 <= 5) by lia.
  assert (Hlen : len [PInt 1; PInt 2] < 5) by (cbn; lia).
  exact (conj eq_refl (conj H0 (conj eq_refl (conj eq_refl (conj
           (conj eq_refl
              (proj2 (setter_is_one_key_lenient (fresh 5 (fun _ => 0)) 5
                        (map PInt [1; 2; 3; 4; 5]) (PInt 7) 7
                        eq_refl H0 eq_refl eq_refl) eq_refl))
           (conj Hlen
              (proj1 (setter_is_one_key_lenient (fresh 5 (fun _ => 0)) 5
                        [PInt 1; PInt 2] (PInt 7) 7
                        eq_refl H0 eq_refl eq_refl) Hlen))))))).
Defined.

Lemma drawn_keys_values (w : world) :
  drawn_keys w =
  map PInt (map (entropy w) (seq 0 (Z.to_nat (_rounds (self w) + 1)))).
Proof. unfold drawn_keys. now rewrite map_map. Qed.

(** X7. A block encrypted without keys is recovered by decrypting without
    keys on the same engine: with two rounds or more and random draws in the
    16-bit range, [encrypt] draws [rounds+1] keys, caches them and returns a
    ciphertext, and [decrypt] of that ciphertext with no keys given returns
    the block's value. *)
Theorem keyless_roundtrip (w : world) (R : Z) (p : pyval) (P : Z) :
  _rounds (self w) = R -> 2 <= R ->
  (forall i, (i <= Z.to_nat R)%nat -> in_range (entropy w i)) ->
  iter_to_int p = Ok P -> in_range P ->
  exists C Pv w',
    encrypt p None w = (Ok C, w') /\
    _round_keys (self w') = Some (drawn_keys w) /\
    len (drawn_keys w) = R + 1 /\
    decrypt C None w' = (Ok Pv, w') /\
    iter_to_int Pv = Ok P.
Proof.
  intros HR H2 Hrnd Hp HP.
  set (zs := map (entropy w) (seq 0 (Z.to_nat (R + 1)))).
  assert (Hzs : Forall in_range zs).
  { apply Forall_forall. intros z Hz. unfold zs in Hz.
    apply in_map_iff in Hz. destruct Hz as [i [<- Hi]].
    apply in_seq in Hi. apply Hrnd. lia. }
  assert (Hlen : len zs = R + 1).
  { unfold len, zs. rewrite length_map, length_seq. lia. }
  assert (Hdrawn : drawn_keys w = map PInt zs)
    by (rewrite drawn_keys_values, HR; reflexivity).
  assert (HR' : _rounds (self (after_draw w)) = R) by exact HR.
  destruct (encrypt_rounds_gen (after_draw w) R zs P HR' ltac:(lia) Hlen Hzs HP)
    as [Eenc Hc].
  destruct (iter_to_int_output (Spec.encrypt R zs P) (after_draw w))
    as [C [EC HC]]; [unfold in_range in Hc; lia|].
  destruct (iter_to_int_output P (after_draw w)) as [Pv [EPv HPv]];
    [unfold in_range in HP; lia|].
  exists C, Pv, (after_draw w).
  split; [|split; [reflexivity|split; [|split; [|exact HPv]]]].
  - rewrite (encrypt_keyless w p P None) by (rewrite ?HR; auto; lia).
    rewrite (encrypt_int_form p P) by exact Hp.
    rewrite Hdrawn, Eenc. exact EC.
  - rewrite Hdrawn, len_map. exact Hlen.
  - rewrite (decrypt_uses_cache C (drawn_keys w)) by reflexivity.
    rewrite Hdrawn.
    rewrite (decrypt_rounds_gen (after_draw w) R zs P C HR' H2 Hlen Hzs HP HC).
    exact EPv.
Qed.

Lemma keyless_roundtrip_witness :
  _rounds (self (fresh 5 Z.of_nat)) = 5 /\ 2 <= 5 /\
  (forall i, (i <= Z.to_nat 5)%nat -> in_range (entropy (fresh 5 Z.of_nat) i)) /\
  iter_to_int (PInt 0xffff) = Ok 0xffff /\ in_range 0xffff /\
  exists C Pv w',
    encrypt (PInt 0xffff) None (fresh 5 Z.of_nat) = (Ok C, w') /\
    _round_keys (self w') = Some (drawn_keys (fresh 5 Z.of_nat)) /\
    len (drawn_keys (fresh 5 Z.of_nat)) = 5 + 1 /\
    decrypt C None w' = (Ok Pv, w') /\
    iter_to_int Pv = Ok 0xffff.
Proof.
  assert (H2 : 2 <= 5) by lia.
  assert (HP : in_range 0xffff) by (unfold in_range; lia).
  assert (Hrnd : forall i, (i <= Z.to_nat 5)%nat ->
                           in_range (entropy (fresh 5 Z.of_nat) i)).
  { intros i Hi. cbn [fresh entropy]. unfold in_range. lia. }
  exact (conj eq_refl (conj H2 (conj Hrnd (conj eq_refl (conj HP
           (keyless_roundtrip (fresh 5 Z.of_nat) 5 (PInt 0xffff) 0xffff
              eq_refl H2 Hrnd eq_refl HP)))))).
Defined.

(** ** The state check *)

Lemma sanity_check_rejects (state : Z) :
  state <> 0 -> state mod 65536 = 0 -> sanity_check state = Raise ValueError.
Proof.
  intros Hnz Hmod. unfold sanity_check. change (0xffff + 1) with 65536.
  rewrite Hmod. destruct (Z.eqb_spec state 0); [contradiction|reflexivity].
Qed.


Lemma add_round_key_rejects (state : Z) (key : pyval) (w : world) :
  sanity_check state = Raise ValueError ->
  add_round_key state key w = (Raise ValueError, w).
Proof.
  intros E. unfold add_round_key. rewrite E. apply bind_lift_raise.
Qed.





(** ** Blocks that are turned away *)

Lemma bind_raises {A B} (m : M A) (k : A -> M B) (w w' : world) (e : exn) :
  m w = (Raise e, w') -> bind m k w = (Raise e, w').
Proof. intros E. unfold bind. now rewrite E. Qed.

Lemma encrypt_invalid_block_keyed
  (p : pyval) (z : Z) (keys : list pyval) (w : world) :
  keys <> [] -> 1 <= _rounds (self w) ->
  iter_to_int p = Ok z -> sanity_check z = Raise ValueError ->
  encrypt p (Some keys) w = (Raise ValueError, w).
Proof.
  intros Hne HR Hp Hz. destruct keys as [|k keys]; [contradiction|].
  rewrite encrypt_unfold by reflexivity.
  rewrite Hp, bind_lift_ok. unfold encrypt_core.
  destruct (Z.eq_dec (_rounds (self w)) 1) as [E1|Hne1].
  - rewrite E1. cbn [Z.sub Z.add Z.opp Z.pos_sub py_slice_upto].
    change (py_slice_upto (k :: keys) 0) with (@nil pyval).
    cbn [for_each]. rewrite (bind_ok _ _ w w z) by reflexivity.
    unfold last_round.
    change (py_index (k :: keys) 0) with (Ok k). rewrite bind_lift_ok.
    apply bind_raises. now apply add_round_key_rejects.
  - assert (Hslice : exists rest,
              py_slice_upto (k :: keys) (_rounds (self w) - 1) = k :: rest).
    { unfold py_slice_upto.
      destruct (Z.ltb_spec (_rounds (self w) - 1) 0); [lia|].
      assert (Hlen : 1 <= len (k :: keys))
        by (unfold len; cbn [List.length]; lia).
      destruct (Z.to_nat (Z.min (_rounds (self w) - 1) (len (k :: keys))))
        as [|n] eqn:En; [lia|].
      cbn [firstn]. now eexists. }
    destruct Hslice as [rest ->]. cbn [for_each].
    apply bind_raises. apply bind_raises.
    unfold round. apply bind_raises. now apply add_round_key_rejects.
Qed.

(** X9. A block is checked before any key is looked at.  A block of an
    unsupported type makes [encrypt] and [decrypt] raise [TypeError] with
    nothing drawn, cached or printed; a block that is a nonzero multiple of
    65536 makes both raise [ValueError] on an engine of one round or more,
    whatever the keys are and whether they are given or not. *)
Theorem bad_block_is_turned_away
  (w : world) (p : pyval) (z : Z) (ty : string) (rxor : option (Z -> Z))
  (round_keys : option (list pyval)) :
  (encrypt (PForeign ty rxor) round_keys w = (Raise TypeError, w) /\
   decrypt (PForeign ty rxor) round_keys w = (Raise TypeError, w)) /\
  (1 <= _rounds (self w) -> iter_to_int p = Ok z ->
   z <> 0 -> z mod 65536 = 0 ->
   fst (encrypt p round_keys w) = Raise ValueError /\
   decrypt p round_keys w = (Raise ValueError, w)).
Proof.
  split; [split; reflexivity|].
  intros HR Hp Hnz Hmod.
  pose proof (sanity_check_rejects z Hnz Hmod) as Hz. split.
  - destruct (py_not round_keys) eqn:Hnot.
    + rewrite (encrypt_keyless w p z round_keys) by (auto; lia).
      rewrite encrypt_invalid_block_keyed with (z := z); auto.
      pose proof (len_drawn_keys w ltac:(lia)) as Hlen.
      intros E. rewrite E in Hlen. cbn in Hlen. lia.
    + destruct round_keys as [[|k keys]|]; try discriminate.
      rewrite encrypt_invalid_block_keyed with (z := z); auto.
      discriminate.
  - unfold decrypt. rewrite Hp, bind_lift_ok, Hz. apply bind_lift_raise.
Qed.

Lemma bad_block_is_turned_away_witness :
  1 <= _rounds (self (fresh 5 (fun _ => 0))) /\
  iter_to_int (PInt 65536) = Ok 65536 /\ 65536 <> 0 /\
  65536 mod 65536 = 0 /\
  fst (encrypt (PInt 65536) (Some [PInt 1])
         (fresh 5 (fun _ => 0))) = Raise ValueError /\
  decrypt (PInt 65536) (Some [PInt 1]) (fresh 5 (fun _ => 0))
  = (Raise ValueError, fresh 5 (fun _ => 0)).
Proof.
  assert (HR : 1 <= _rounds (self (fresh 5 (fun _ => 0)))) by (cbn; lia).
  assert (Hnz : 65536 <> 0) by discriminate.
  exact (conj HR (conj eq_refl (conj Hnz (conj eq_refl
           (proj2 (bad_block_is_turned_away (fresh 5 (fun _ => 0))
                     (PInt 65536) 65536 EmptyString None (Some [PInt 1]))
              HR eq_refl Hnz eq_refl))))).
Defined.

(** ** Keys beyond the ones a transform needs *)

Lemma py_index_app {A} (l extra : list A) (i : Z) :
  0 <= i < len l -> py_index (l ++ extra) i = py_index l i.
Proof.
  intros Hi. unfold py_index.
  assert (Hlen : len (l ++ extra) = len l + len extra)
    by (unfold len; rewrite length_app; lia).
  assert (0 <= len extra) by (unfold len; lia).
  destruct (Z.ltb_spec i 0); [lia|].
  destruct (Z.leb_spec 0 i); [|lia].
  destruct (Z.ltb_spec i (len (l ++ extra))); [|lia].
  destruct (Z.ltb_spec i (len l)); [|lia].
  cbn [andb]. rewrite nth_error_app1 by (unfold len in Hi; lia).
  reflexivity.
Qed.

Lemma firstn_app_short {A} (l extra : list A) (n : nat) :
  (n <= List.length l)%nat -> firstn n (l ++ extra) = firstn n l.
Proof.
  intros Hn. rewrite firstn_app.
  replace (n - List.length l)%nat with 0%nat by lia.
  cbn [firstn]. apply app_nil_r.
Qed.

(** X11. Keys after the first [rounds+1] are ignored: [encrypt] on an
    engine of one round or more, and [decrypt] on an engine of two rounds or
    more, do with a longer key sequence exactly what they do with its first
    [rounds+1] keys, whatever the keys and the block are. *)
Theorem surplus_keys_are_ignored
  (w : world) (R : Z) (keys extra : list pyval) (block : pyval) :
  _rounds (self w) = R -> len keys = R + 1 ->
  (1 <= R ->
   encrypt block (Some (keys ++ extra)) w = encrypt block (Some keys) w) /\
  (2 <= R ->
   decrypt block (Some (keys ++ extra)) w = decrypt block (Some keys) w).
Proof.
  intros HR Hlen. split; intros HR1.
  - assert (Hne : py_not (Some keys) = false)
      by (destruct keys; [cbn in Hlen; lia|reflexivity]).
    assert (Hne' : py_not (Some (keys ++ extra)) = false)
      by (destruct keys; [cbn in Hlen; lia|reflexivity]).
    rewrite !encrypt_unfold by assumption. rewrite HR.
    rewrite !py_index_app by lia.
    rewrite !py_slice_upto_firstn by lia.
    rewrite firstn_app_short by (unfold len in Hlen; lia).
    reflexivity.
  - rewrite !decrypt_unfold. rewrite HR.
    rewrite !py_index_app by lia.
    rewrite !py_slice_downfrom_firstn by lia.
    rewrite firstn_app_short by (unfold len in Hlen; lia).
    reflexivity.
Qed.

Lemma surplus_keys_are_ignored_witness :
  _rounds (self (fresh 2 (fun _ => 0))) = 2 /\
  len [PInt 1; PInt 2; PInt 3] = 2 + 1 /\ 1 <= 2 /\ 2 <= 2 /\
  encrypt (PInt 7) (Some ([PInt 1; PInt 2; PInt 3] ++ [PInt 4; numpy_one]))
    (fresh 2 (fun _ => 0))
  = encrypt (PInt 7) (Some [PInt 1; PInt 2; PInt 3]) (fresh 2 (fun _ => 0)) /\
  decrypt (PInt 7) (Some ([PInt 1; PInt 2; PInt 3] ++ [PInt 4; numpy_one]))
    (fresh 2 (fun _ => 0))
  = decrypt (PInt 7) (Some [PInt 1; PInt 2; PInt 3]) (fresh 2 (fun _ => 0)).
Proof.
  assert (H1 : 1 <= 2) by lia.
  assert (H2 : 2 <= 2) by lia.
  exact (conj eq_refl (conj eq_refl (conj H1 (conj H2 (conj
           (proj1 (surplus_keys_are_ignored (fresh 2 (fun _ => 0)) 2
                     [PInt 1; PInt 2; PInt 3] [PInt 4; numpy_one] (PInt 7)
                     eq_refl eq_refl) H1)
           (proj2 (surplus_keys_are_ignored (fresh 2 (fun _ => 0)) 2
                     [PInt 1; PInt 2; PInt 3] [PInt 4; numpy_one] (PInt 7)
                     eq_refl eq_refl) H2)))))).
Defined.
